(** * Medical-Assistant: the symptom-disease matching engine

    A shallow embedding of the diagnosis path of the repository:

    - [scripts/init_db.py]: the schema ([create_schema]) and the stored
      function [diagnose(symptom_ids INTEGER[])] ([create_functions]);
    - [app/services/diagnose_service.py]: [get_symptom_ids],
      [get_recommendations], [perform_diagnosis];
    - [app/api/diagnose.py]: the handler [diagnose_symptoms].

    Tables are lists of rows, in the order in which the storage engine scans
    them.  A query without [ORDER BY] returns its rows in scan order; a query
    with [ORDER BY] may return any ordering of its rows that respects the sort
    keys, so its results are given twice: as a relation ([diagnose_returns],
    [get_recommendations_returns]) that admits every such ordering, and as a
    function ([diagnose], [get_recommendations]) that computes one of them
    (the stable one).  Names are strings of 7-bit characters. *)

From Stdlib Require Import ZArith QArith Qround Qabs Qpower Lia Lqa.
From Stdlib Require Import List Bool String Ascii DecimalString.
From Stdlib Require Import Permutation Sorted Morphisms.
From Stdlib Require Import Floats.SpecFloat.
Import ListNotations.

(* ================================================================= *)
(** ** Python strings: [str.strip] and [str.lower] *)

Module Py.

(** [str.isspace] on a 7-bit character: TAB..CR, FS..US and SPACE. *)
Definition isspace (c : ascii) : bool :=
  let n := nat_of_ascii c in
  ((9 <=? n) && (n <=? 13) || (28 <=? n) && (n <=? 32))%nat.

Definition lower_char (c : ascii) : ascii :=
  let n := nat_of_ascii c in
  if ((65 <=? n) && (n <=? 90))%nat then ascii_of_nat (n + 32) else c.

Fixpoint lower (s : string) : string :=
  match s with
  | EmptyString => EmptyString
  | String c s' => String (lower_char c) (lower s')
  end.

Fixpoint lstrip (s : string) : string :=
  match s with
  | EmptyString => EmptyString
  | String c s' => if isspace c then lstrip s' else s
  end.

Fixpoint rstrip (s : string) : string :=
  match s with
  | EmptyString => EmptyString
  | String c s' =>
      match rstrip s' with
      | EmptyString => if isspace c then EmptyString else String c EmptyString
      | r => String c r
      end
  end.

Definition strip (s : string) : string := rstrip (lstrip s).


End Py.

(* ================================================================= *)
(** ** PostgreSQL [float8] arithmetic

    A [float8] value is kept as the rational it denotes.  Every operation
    returns the exact result rounded to 53 significant bits, ties to even
    (IEEE 754 binary64, round-to-nearest-even).  The exponent is not bounded:
    the operands of the engine are row counts, so every intermediate value
    lies between 2^-63 and 2^63, far inside the normal range of binary64,
    where binary64 has exactly these values. *)

Module Float8.
Local Open Scope Q_scope.

Definition half : Q := 1 # 2.

(** C's [rint] in the default rounding mode: the nearest integer, ties to
    the even one. *)
Definition rint (x : Q) : Z :=
  let f := Qfloor x in
  match Qcompare (x - inject_Z f) half with
  | Lt => f
  | Gt => (f + 1)%Z
  | Eq => if Z.even f then f else (f + 1)%Z
  end.

(** [ilog2 x] is the integer [l] with [2^l <= x < 2^(l+1)], for [0 < x]. *)
Definition ilog2 (x : Q) : Z :=
  let d := (Z.log2 (Qnum x) - Z.log2 (Zpos (Qden x)))%Z in
  if Qle_bool (2 ^ d) x then d else (d - 1)%Z.

(** Rounding to binary64: scale [x] so that its integer part has 53 bits,
    round to the nearest integer, scale back (and reduce the fraction). *)
Definition round53 (x : Q) : Q :=
  if Qeq_bool x 0 then 0
  else
    let e := (ilog2 (Qabs x) - 52)%Z in
    Qred (inject_Z (rint (x / 2 ^ e)) * 2 ^ e).

(** [bigint::float8] and [integer::float8]. *)
Definition i8tod (n : Z) : Q := round53 (inject_Z n).
Definition i4tod (n : Z) : Q := round53 (inject_Z n).

End Float8.

(* ================================================================= *)
(** ** SQL values and errors *)

Inductive sql_error : Set :=
| division_by_zero
| integer_out_of_range.

(** The outcome of evaluating an expression or a statement. *)
Inductive result (A : Type) : Type :=
| Ok (a : A)
| Raise (e : sql_error).
Arguments Ok {A} a.
Arguments Raise {A} e.

Definition bind {A B : Type} (r : result A) (k : A -> result B) : result B :=
  match r with
  | Ok a => k a
  | Raise e => Raise e
  end.

Declare Scope sql_scope.
Delimit Scope sql_scope with sql.
Notation "x <- c ;; k" := (bind c (fun x => k))
  (at level 61, c at next level, right associativity) : sql_scope.

Fixpoint mapM {A B : Type} (f : A -> result B) (l : list A) : result (list B) :=
  match l with
  | [] => Ok []
  | a :: l' =>
      (b <- f a ;; bs <- mapM f l' ;; Ok (b :: bs))%sql
  end.

(** [NULLIF(a, b)]: NULL ([None]) when the two are equal. *)
Definition nullif (a b : Z) : option Z :=
  if (a =? b)%Z then None else Some a.

(** [float8div] raises on a zero divisor; [dtoi4] (the cast to INTEGER)
    rounds with [rint] and raises outside the 32-bit range. *)
Definition float8div (x y : Q) : result Q :=
  if Qeq_bool y 0 then Raise division_by_zero
  else Ok (Float8.round53 (x / y)).

Definition float8mul (x y : Q) : result Q :=
  Ok (Float8.round53 (x * y)).

Definition dtoi4 (x : Q) : result Z :=
  let n := Float8.rint x in
  if ((- 2 ^ 31 <=? n) && (n <? 2 ^ 31))%Z then Ok n
  else Raise integer_out_of_range.

(** [x = ANY(arr)]. *)
Definition eq_any (x : Z) (arr : list Z) : bool := existsb (Z.eqb x) arr.

(** [COUNT( * )] and [COUNT(DISTINCT e)] over the values of a group. *)
Definition count_star {A : Type} (l : list A) : Z := Z.of_nat (List.length l).
Definition count_distinct (l : list Z) : Z :=
  Z.of_nat (List.length (nodup Z.eq_dec l)).

(** [ORDER BY]: the stable ordering of [l] by [leb], computed by insertion. *)
Fixpoint insert_by {A : Type} (leb : A -> A -> bool) (x : A) (l : list A) : list A :=
  match l with
  | [] => [x]
  | y :: l' => if leb x y then x :: l else y :: insert_by leb x l'
  end.

Definition order_by {A : Type} (leb : A -> A -> bool) (l : list A) : list A :=
  fold_right (insert_by leb) [] l.

(** Every list an [ORDER BY] may return for the rows [l]. *)
Definition ordering_of {A : Type} (leb : A -> A -> bool) (l out : list A) : Prop :=
  Permutation l out /\ Sorted (fun a b => leb a b = true) out.

(* ================================================================= *)
(** ** The schema ([create_schema]) *)

Record symptom : Type := {
  sym_id : Z;                       (* SERIAL PRIMARY KEY *)
  sym_name : string;                (* VARCHAR(255) NOT NULL UNIQUE *)
  sym_severity_weight : option Z    (* INTEGER DEFAULT 5 *)
}.

Record disease : Type := {
  dis_id : Z;                       (* SERIAL PRIMARY KEY *)
  dis_name : string;                (* VARCHAR(255) NOT NULL UNIQUE *)
  dis_description : option string   (* TEXT *)
}.

Record disease_symptom : Type := {
  ds_disease_id : Z;                (* INTEGER NOT NULL *)
  ds_symptom_id : Z;                (* INTEGER NOT NULL *)
  ds_weight : option Q              (* DECIMAL(3, 2) DEFAULT 1.0 *)
}.

Record recommendation : Type := {
  rec_disease_id : Z;               (* INTEGER NOT NULL *)
  rec_text : string;                (* recommendation_text TEXT NOT NULL *)
  rec_precaution_order : option Z   (* precaution_order INTEGER DEFAULT 1 *)
}.

Record database : Type := {
  symptoms : list symptom;
  diseases : list disease;
  disease_symptoms : list disease_symptom;
  recommendations : list recommendation
}.

(* ================================================================= *)
(** ** [get_symptom_ids] (diagnose_service.py) *)

(** [SELECT id, name FROM symptoms WHERE LOWER(name) = %s] followed by
    [cursor.fetchone()]: the first matching row in scan order, if any.  On
    7-bit names PostgreSQL's [LOWER] is [Py.lower]. *)
Definition fetch_symptom (db : database) (symptom_clean : string)
  : option (Z * string) :=
  match filter (fun s => String.eqb (Py.lower (sym_name s)) symptom_clean)
               (symptoms db) with
  | [] => None
  | s :: _ => Some (sym_id s, sym_name s)
  end.

(** The [for symptom_name in symptom_names] loop, with its two accumulators. *)
Fixpoint get_symptom_ids_loop (db : database) (symptom_names : list string)
    (symptom_ids : list Z) (matched_symptoms : list string)
  : list Z * list string :=
  match symptom_names with
  | [] => (symptom_ids, matched_symptoms)
  | symptom_name :: rest =>
      let symptom_clean := Py.lower (Py.strip symptom_name) in
      match fetch_symptom db symptom_clean with
      | Some (id, name) =>
          get_symptom_ids_loop db rest
            (symptom_ids ++ [id]) (matched_symptoms ++ [name])
      | None => get_symptom_ids_loop db rest symptom_ids matched_symptoms
      end
  end.

Definition get_symptom_ids (db : database) (symptom_names : list string)
  : list Z * list string :=
  get_symptom_ids_loop db symptom_names [] [].

(* ================================================================= *)
(** ** The stored function [diagnose] (init_db.py) *)

(** A row of [RETURNS TABLE (...)]. *)
Record diagnose_row : Type := {
  disease_id : Z;
  disease_name : string;
  description : option string;
  match_count : Z;
  total_symptoms : Z;
  confidence_score : option Z
}.

(** [FROM diseases d INNER JOIN disease_symptoms ds ON d.id = ds.disease_id]. *)
Definition joined_row : Type := (disease * disease_symptom)%type.

Definition from_join (db : database) : list joined_row :=
  flat_map
    (fun d =>
       map (pair d)
           (filter (fun ds => (dis_id d =? ds_disease_id ds)%Z)
                   (disease_symptoms db)))
    (diseases db).

(** [WHERE ds.symptom_id = ANY(symptom_ids)]. *)
Definition where_clause (symptom_ids : list Z) (r : joined_row) : bool :=
  eq_any (ds_symptom_id (snd r)) symptom_ids.

(** [GROUP BY d.id, d.name, d.description]. *)
Definition group_key : Type := (Z * string * option string)%type.

Definition key_of (r : joined_row) : group_key :=
  (dis_id (fst r), dis_name (fst r), dis_description (fst r)).

Definition group_key_eq_dec (a b : group_key) : {a = b} + {a <> b}.
Proof.
  repeat decide equality; try apply Z.eq_dec; apply string_dec.
Defined.

Definition group_key_eqb (a b : group_key) : bool :=
  if group_key_eq_dec a b then true else false.

Definition group : Type := (group_key * list joined_row)%type.

Definition group_by (rows : list joined_row) : list group :=
  map (fun k => (k, filter (fun r => group_key_eqb (key_of r) k) rows))
      (nodup group_key_eq_dec (map key_of rows)).

(** Column 4: [COUNT(DISTINCT ds.symptom_id)]. *)
Definition matched (g : group) : Z :=
  count_distinct (map (fun r : joined_row => ds_symptom_id (snd r)) (snd g)).

(** Column 5:
    [(SELECT COUNT( * ) FROM disease_symptoms ds2 WHERE ds2.disease_id = d.id)]. *)
Definition profile_size (db : database) (id : Z) : Z :=
  count_star (filter (fun ds2 => (ds_disease_id ds2 =? id)%Z)
                     (disease_symptoms db)).

(** Column 6:
    [CAST((m::FLOAT / NULLIF(t, 0)) * 100 AS INTEGER)]; the operators are
    strict, so a NULL divisor makes the whole expression NULL. *)
Definition confidence (m t : Z) : result (option Z) :=
  match nullif t 0 with
  | None => Ok None
  | Some t' =>
      (q <- float8div (Float8.i8tod m) (Float8.i8tod t') ;;
       p <- float8mul q (Float8.i4tod 100) ;;
       n <- dtoi4 p ;;
       Ok (Some n))%sql
  end.

(** [HAVING COUNT(DISTINCT ds.symptom_id) > 0]. *)
Definition having (g : group) : bool := (0 <? matched g)%Z.

(** The select list, evaluated on one group. *)
Definition select_row (db : database) (g : group) : result diagnose_row :=
  let '(id, name, descr) := fst g in
  let m := matched g in
  let t := profile_size db id in
  (c <- confidence m t ;;
   Ok {| disease_id := id; disease_name := name; description := descr;
         match_count := m; total_symptoms := t; confidence_score := c |})%sql.

(** The rows of the query before [ORDER BY] and [LIMIT]. *)
Definition diagnose_rows (db : database) (symptom_ids : list Z)
  : result (list diagnose_row) :=
  mapM (select_row db)
       (filter having
               (group_by (filter (where_clause symptom_ids) (from_join db)))).

(** [ORDER BY 6 DESC, 4 DESC].  In descending order PostgreSQL puts NULLs
    first.  [Lt] means that the first value sorts before the second. *)
Definition desc_nulls_first (a b : option Z) : comparison :=
  match a, b with
  | None, None => Eq
  | None, Some _ => Lt
  | Some _, None => Gt
  | Some x, Some y => (y ?= x)%Z
  end.

Definition precedes (a b : diagnose_row) : bool :=
  match desc_nulls_first (confidence_score a) (confidence_score b) with
  | Lt => true
  | Gt => false
  | Eq => (match_count b <=? match_count a)%Z
  end.

(** [LIMIT 10]. *)
Definition limit : nat := 10.

(** Every table a call [diagnose(symptom_ids)] may return. *)
Definition diagnose_returns (db : database) (symptom_ids : list Z)
    (out : list diagnose_row) : Prop :=
  exists rows sorted,
    diagnose_rows db symptom_ids = Ok rows /\
    ordering_of precedes rows sorted /\
    out = firstn limit sorted.

(** The call that orders ties as the groups were formed. *)
Definition diagnose (db : database) (symptom_ids : list Z)
  : result (list diagnose_row) :=
  (rows <- diagnose_rows db symptom_ids ;;
   Ok (firstn limit (order_by precedes rows)))%sql.

(* ================================================================= *)
(** ** [get_recommendations] (diagnose_service.py) *)

(** [WHERE disease_id = %s]. *)
Definition recommendations_of (db : database) (id : Z) : list recommendation :=
  filter (fun r => (rec_disease_id r =? id)%Z) (recommendations db).

(** [ORDER BY precaution_order]: ascending, NULLs last. *)
Definition asc_nulls_last (a b : option Z) : bool :=
  match a, b with
  | _, None => true
  | None, Some _ => false
  | Some x, Some y => (x <=? y)%Z
  end.

Definition by_precaution_order (a b : recommendation) : bool :=
  asc_nulls_last (rec_precaution_order a) (rec_precaution_order b).

Definition get_recommendations_returns (db : database) (id : Z)
    (texts : list string) : Prop :=
  exists rows,
    ordering_of by_precaution_order (recommendations_of db id) rows /\
    texts = map rec_text rows.

Definition get_recommendations (db : database) (id : Z) : list string :=
  map rec_text (order_by by_precaution_order (recommendations_of db id)).

(* ================================================================= *)
(** ** [perform_diagnosis] (diagnose_service.py) *)

(** One dictionary of [results]: the six columns of the row, kept together,
    and the key ['recommendations']. *)
Record diagnosis : Type := {
  dx_row : diagnose_row;
  dx_recommendations : list string
}.

Definition perform_diagnosis (db : database) (symptom_ids : list Z)
  : result (list diagnosis) :=
  (rows <- diagnose db symptom_ids ;;
   Ok (map (fun row =>
              {| dx_row := row;
                 dx_recommendations := get_recommendations db (disease_id row) |})
           rows))%sql.

Definition perform_diagnosis_returns (db : database) (symptom_ids : list Z)
    (results : list diagnosis) : Prop :=
  exists rows,
    diagnose_returns db symptom_ids rows /\
    map dx_row results = rows /\
    Forall (fun d => get_recommendations_returns
                       db (disease_id (dx_row d)) (dx_recommendations d))
           results.

(* ================================================================= *)
(** ** The handler [diagnose_symptoms] (api/diagnose.py) *)








Section Handler.

(** The behaviour of [perform_diagnosis] during the request. *)
Variable perform : list Z -> result (list diagnosis).


End Handler.


(* ================================================================= *)
(** ** Catalogs used in the examples *)

Module Scenario.
Local Open Scope string_scope.
Local Open Scope Z_scope.

Definition sym (id : Z) (name : string) : symptom :=
  {| sym_id := id; sym_name := name; sym_severity_weight := Some 5 |}.

Definition dis (id : Z) (name : string) : disease :=
  {| dis_id := id; dis_name := name; dis_description := None |}.

Definition link (d s : Z) : disease_symptom :=
  {| ds_disease_id := d; ds_symptom_id := s; ds_weight := Some 1%Q |}.

Definition advice (d : Z) (text : string) (order : Z) : recommendation :=
  {| rec_disease_id := d; rec_text := text;
     rec_precaution_order := Some order |}.

(** Scenario A: fever = 1, headache = 2, cough = 3, fatigue = 4;
    Common Cold = 1, Flu = 2, Migraine = 3. *)
Definition A : database :=
  {| symptoms := [sym 1 "fever"; sym 2 "headache"; sym 3 "cough";
                  sym 4 "fatigue"];
     diseases := [dis 1 "Common Cold"; dis 2 "Flu"; dis 3 "Migraine"];
     disease_symptoms :=
       [link 1 1; link 1 3; link 1 4;
        link 2 1; link 2 2; link 2 3; link 2 4;
        link 3 2];
     recommendations :=
       [advice 1 "drink fluids" 2; advice 1 "rest" 1;
        advice 2 "see a doctor" 1] |}.

Definition candidate (id : Z) (name : string) (m t c : Z) : diagnose_row :=
  {| disease_id := id; disease_name := name; description := None;
     match_count := m; total_symptoms := t; confidence_score := Some c |}.

(** The ranking the engine returns for the ids of fever, headache and cough,
    and the ranking with the truncated score. *)
Definition ranked : list diagnose_row :=
  [candidate 3 "Migraine" 1 1 100; candidate 2 "Flu" 3 4 75;
   candidate 1 "Common Cold" 2 3 67].

Definition truncated : list diagnose_row :=
  [candidate 3 "Migraine" 1 1 100; candidate 2 "Flu" 3 4 75;
   candidate 1 "Common Cold" 2 3 66].




End Scenario.

(* ================================================================= *)
(** ** Quantities the statements speak about *)

(** The value of column 6 when nothing is NULL and nothing raises. *)
Definition score (m t : Z) : Z :=
  Float8.rint
    (Float8.round53
       (Float8.round53 (Float8.i8tod m / Float8.i8tod t) * Float8.i4tod 100)).

(** The exponent [round53] scales by, and the relative error bound 2^-53. *)
Definition expo (x : Q) : Z := (Float8.ilog2 x - 52)%Z.
Definition ulp_half : Q := 1 # (2 ^ 53).

(** The profile of a disease, and the number of distinct input symptoms in
    it. *)
Definition profile (db : database) (id : Z) : list Z :=
  map ds_symptom_id
      (filter (fun ds => (ds_disease_id ds =? id)%Z) (disease_symptoms db)).

Definition overlap (db : database) (ids : list Z) (id : Z) : Z :=
  count_distinct (filter (fun s => eq_any s ids) (profile db id)).

(** What the query computes for one disease. *)
Definition candidate_of (db : database) (ids : list Z) (c : diagnose_row) : Prop :=
  In {| dis_id := disease_id c; dis_name := disease_name c;
        dis_description := description c |} (diseases db) /\
  match_count c = overlap db ids (disease_id c) /\
  total_symptoms c = profile_size db (disease_id c) /\
  (1 <= match_count c <= total_symptoms c)%Z /\
  confidence_score c = Some (score (match_count c) (total_symptoms c)).

(** The two sort keys of a row, and their order. *)
Definition sort_key (r : diagnose_row) : option Z * Z :=
  (confidence_score r, match_count r).

Definition key_precedes (k1 k2 : option Z * Z) : Prop :=
  match desc_nulls_first (fst k1) (fst k2) with
  | Lt => True
  | Gt => False
  | Eq => (snd k2 <= snd k1)%Z
  end.




(* ================================================================= *)
(** ** IEEE 754 binary64 as the standard library specifies it

    The same expression evaluated with [SpecFloat] at precision 53 and
    maximal exponent 1024, to compare [score] with. *)

Module Binary64.

Definition of_Z (n : Z) : spec_float := binary_normalize 53 1024 n 0 false.

Definition to_Q (f : spec_float) : option Q :=
  match f with
  | S754_zero _ => Some 0%Q
  | S754_finite s m e =>
      Some ((if s then - inject_Z (Zpos m) else inject_Z (Zpos m)) * 2 ^ e)%Q
  | _ => None
  end.

Definition ieee_score (m t : Z) : option Z :=
  option_map Float8.rint
    (to_Q (SFmul 53 1024 (SFdiv 53 1024 (of_Z m) (of_Z t)) (of_Z 100))).

(** The pairs [(m, t)] with [1 <= m <= t <= n]. *)
Definition grid (n : nat) : list (Z * Z) :=
  flat_map (fun t => map (fun m => (Z.of_nat m, Z.of_nat t)) (seq 1 t))
           (seq 1 n).

Definition agrees (p : Z * Z) : bool :=
  match ieee_score (fst p) (snd p) with
  | Some s => (s =? score (fst p) (snd p))%Z
  | None => false
  end.

End Binary64.

(* ================================================================= *)
(** ** [LIKE] (used by [search_symptoms]) *)

Inductive like_token : Type :=
| Like_any                  (* [%]: any sequence of characters *)
| Like_one                  (* [_]: any single character *)
| Like_char (c : ascii).    (* the character itself *)

(** The pattern, read with the default escape character, the backslash: an
    escaped character stands for itself.  [None]: the pattern ends with the
    escape character, which PostgreSQL rejects. *)
Fixpoint like_tokens (pattern : string) : option (list like_token) :=
  match pattern with
  | EmptyString => Some []
  | String c p =>
      if Ascii.eqb c "\" then
        match p with
        | EmptyString => None
        | String c' p' => option_map (cons (Like_char c')) (like_tokens p')
        end
      else if Ascii.eqb c "%" then option_map (cons Like_any) (like_tokens p)
      else if Ascii.eqb c "_" then option_map (cons Like_one) (like_tokens p)
      else option_map (cons (Like_char c)) (like_tokens p)
  end.

(** [f] holds of [s] or of one of its proper suffixes. *)
Fixpoint any_suffix (f : string -> bool) (s : string) : bool :=
  f s || match s with
         | EmptyString => false
         | String _ s' => any_suffix f s'
         end.

Fixpoint like_match (ts : list like_token) (s : string) : bool :=
  match ts with
  | [] => match s with EmptyString => true | String _ _ => false end
  | Like_any :: ts' => any_suffix (like_match ts') s
  | Like_one :: ts' =>
      match s with
      | EmptyString => false
      | String _ s' => like_match ts' s'
      end
  | Like_char c :: ts' =>
      match s with
      | EmptyString => false
      | String c' s' => Ascii.eqb c c' && like_match ts' s'
      end
  end.

(* ================================================================= *)
(** ** [search_symptoms] and [get_disease_details] (services/diagnose_service.py) *)

(** The dictionaries [search_symptoms] builds (lines 101-107). *)
Record symptom_dict : Type := {
  sd_id : Z;
  sd_name : string;
  sd_severity_weight : option Z;
  sd_description : option string
}.

Definition symptom_dict_of (row : symptom) : symptom_dict :=
  {| sd_id := sym_id row; sd_name := sym_name row;
     sd_severity_weight := sym_severity_weight row;
     sd_description := None |}.

(** The dictionary [get_disease_details] builds; an entry of ['symptoms']
    has the keys ['id'], ['name'], ['severity_weight'], the columns of a row
    of [symptoms]. *)
Record disease_details : Type := {
  det_id : Z;
  det_name : string;
  det_description : option string;
  det_symptoms : list symptom;
  det_recommendations : list string
}.

(** [f"%{query.lower()}%"] (line 87). *)
Definition search_pattern (query : string) : string :=
  ("%" ++ Py.lower query ++ "%")%string.

(** [WHERE LOWER(name) LIKE %s] (line 93). *)
Definition search_where (db : database) (ts : list like_token) : list symptom :=
  filter (fun s => like_match ts (Py.lower (sym_name s))) (symptoms db).

(** [LIMIT 50] (line 95). *)
Definition search_limit : nat := 50.

(** [FROM symptoms s INNER JOIN disease_symptoms ds ON s.id = ds.symptom_id
    WHERE ds.disease_id = %s] (lines 185-188). *)
Definition details_symptoms (db : database) (disease_id : Z) : list symptom :=
  flat_map
    (fun s =>
       map (fun _ => s)
           (filter (fun ds => (sym_id s =? ds_symptom_id ds)%Z
                              && (ds_disease_id ds =? disease_id)%Z)
                   (disease_symptoms db)))
    (symptoms db).

Section Collation.

(** The collation of the database: whether the first text sorts before, or
    equal to, the second under [ORDER BY]. *)
Variable collate : string -> string -> bool.

Definition by_name (a b : symptom) : bool :=
  collate (sym_name a) (sym_name b).

(** [search_symptoms] (lines 74-112); [None] when the query raises. *)
Definition search_symptoms_returns (db : database) (query : string)
    (out : list symptom_dict) : Prop :=
  exists ts rows,
    like_tokens (search_pattern query) = Some ts /\
    ordering_of by_name (search_where db ts) rows /\
    out = map symptom_dict_of (firstn search_limit rows).

Definition search_symptoms (db : database) (query : string)
  : option (list symptom_dict) :=
  match like_tokens (search_pattern query) with
  | None => None
  | Some ts =>
      Some (map symptom_dict_of
              (firstn search_limit (order_by by_name (search_where db ts))))
  end.

(** [get_disease_details] (lines 154-215); [None] when no disease has the
    id. *)
Definition get_disease_details_returns (db : database) (disease_id : Z)
    (r : option disease_details) : Prop :=
  match filter (fun d => (dis_id d =? disease_id)%Z) (diseases db), r with
  | [], None => True
  | disease_row :: _, Some det =>
      det_id det = dis_id disease_row /\
      det_name det = dis_name disease_row /\
      det_description det = dis_description disease_row /\
      ordering_of by_name (details_symptoms db disease_id) (det_symptoms det) /\
      get_recommendations_returns db disease_id (det_recommendations det)
  | _, _ => False
  end.

Definition get_disease_details (db : database) (disease_id : Z)
  : option disease_details :=
  match filter (fun d => (dis_id d =? disease_id)%Z) (diseases db) with
  | [] => None
  | disease_row :: _ =>
      Some {| det_id := dis_id disease_row;
              det_name := dis_name disease_row;
              det_description := dis_description disease_row;
              det_symptoms := order_by by_name (details_symptoms db disease_id);
              det_recommendations := get_recommendations db disease_id |}
  end.

End Collation.

(** *** Texts and patterns, for the statements about [search_symptoms] *)

(** A text contains another. *)
Definition contains (sub s : string) : Prop :=
  exists pre post, s = (pre ++ sub ++ post)%string.

(** No character of the text is special in a [LIKE] pattern. *)
Fixpoint plain (s : string) : bool :=
  match s with
  | EmptyString => true
  | String c s' =>
      negb (Ascii.eqb c "\") && negb (Ascii.eqb c "%") && negb (Ascii.eqb c "_")
      && plain s'
  end.

Fixpoint chars (s : string) : list like_token :=
  match s with
  | EmptyString => []
  | String c s' => Like_char c :: chars s'
  end.

(* ================================================================= *)
(** ** The loader (scripts/load_kaggle_data.py) *)

Module Loader.

(** [str.replace('_', ' ')]. *)
Fixpoint replace_underscores (s : string) : string :=
  match s with
  | EmptyString => EmptyString
  | String c s' =>
      String (if Ascii.eqb c "_" then " "%char else c) (replace_underscores s')
  end.

(** [str(symptom).strip().lower().replace('_', ' ')] (lines 31 and 121):
    the name under which the text of a symptom cell is stored in [symptoms]
    and looked up in [symptom_map]. *)
Definition symptom_clean (cell : string) : string :=
  replace_underscores (Py.lower (Py.strip cell)).



End Loader.
(* ================================================================= *)
(** * Properties *)

(** ** [float8] rounding *)

Module Float8Facts.
Import Float8.
Local Open Scope Q_scope.

Lemma frac_bounds (x : Q) :
  0 <= x - inject_Z (Qfloor x) /\ x - inject_Z (Qfloor x) < 1.
Proof.
  pose proof (Qfloor_le x) as Hlo.
  pose proof (Qlt_floor x) as Hhi.
  rewrite inject_Z_plus in Hhi.
  change (inject_Z 1) with 1 in Hhi.
  split; lra.
Qed.

(** [rint x] is the floor of [x] or the next integer. *)
Lemma rint_cases (x : Q) :
  (rint x = Qfloor x /\ x - inject_Z (Qfloor x) <= half) \/
  (rint x = (Qfloor x + 1)%Z /\ half <= x - inject_Z (Qfloor x)).
Proof.
  unfold rint.
  destruct (Qcompare_spec (x - inject_Z (Qfloor x)) half) as [E | L | G].
  - destruct (Z.even (Qfloor x)); [left | right]; split; auto; rewrite E; lra.
  - left; split; auto; lra.
  - right; split; auto; lra.
Qed.

Lemma rint_near (x : Q) : Qabs (inject_Z (rint x) - x) <= half.
Proof.
  pose proof (frac_bounds x) as [Hlo Hhi].
  apply Qabs_Qle_condition.
  destruct (rint_cases x) as [[-> H] | [-> H]];
    rewrite ?inject_Z_plus; change (inject_Z 1) with 1;
    unfold half in *; split; lra.
Qed.

Lemma rint_Z (k : Z) : rint (inject_Z k) = k.
Proof.
  unfold rint. rewrite Qfloor_Z.
  destruct (Qcompare_spec (inject_Z k - inject_Z k) half) as [E | L | G];
    unfold half in *; try lra; reflexivity.
Qed.

#[global] Instance rint_wd : Proper (Qeq ==> eq) rint.
Proof.
  intros x y E. unfold rint.
  rewrite (Qfloor_comp _ _ E).
  assert (Hc : Qcompare (x - inject_Z (Qfloor y)) half
               = Qcompare (y - inject_Z (Qfloor y)) half)
    by (rewrite E; reflexivity).
  rewrite Hc. reflexivity.
Qed.

Lemma rint_mono (x y : Q) : x <= y -> (rint x <= rint y)%Z.
Proof.
  intros Hxy.
  pose proof (Qfloor_resp_le _ _ Hxy) as Hf.
  destruct (Z.eq_dec (Qfloor x) (Qfloor y)) as [E | N].
  - unfold rint. rewrite E.
    destruct (Qcompare_spec (x - inject_Z (Qfloor y)) half) as [Ex | Lx | Gx];
      destruct (Qcompare_spec (y - inject_Z (Qfloor y)) half) as [Ey | Ly | Gy];
      try destruct (Z.even (Qfloor y)); try lia; unfold half in *; lra.
  - destruct (rint_cases x) as [[-> _] | [-> _]];
      destruct (rint_cases y) as [[-> _] | [-> _]]; lia.
Qed.

(** *** Powers of two *)

Lemma pow2_pos (e : Z) : 0 < 2 ^ e.
Proof. apply Qpower_0_lt. reflexivity. Qed.

Lemma pow2_add (a b : Z) : 2 ^ (a + b) == 2 ^ a * 2 ^ b.
Proof. apply Qpower_plus. discriminate. Qed.

Lemma pow2_succ (e : Z) : 2 ^ (e + 1) == 2 * 2 ^ e.
Proof. rewrite pow2_add. change (2 ^ 1) with 2. ring. Qed.

Lemma pow2_le (a b : Z) : (a <= b)%Z -> 2 ^ a <= 2 ^ b.
Proof. intros H. apply Qpower_le_compat_l; [exact H | discriminate]. Qed.

Lemma pow2_lt_inv (a b : Z) : 2 ^ a < 2 ^ b -> (a < b)%Z.
Proof. intros H. apply (Qpower_lt_compat_l_inv 2); [exact H | reflexivity]. Qed.

Lemma pow2_Z (n : Z) : (0 <= n)%Z -> inject_Z (2 ^ n) == 2 ^ n.
Proof. intros H. apply (Zpower_Qpower 2 n H). Qed.

Lemma Zlog2_Q (n : Z) :
  (0 < n)%Z -> 2 ^ Z.log2 n <= inject_Z n /\ inject_Z n < 2 ^ (Z.log2 n + 1).
Proof.
  intros Hn.
  destruct (Z.log2_spec n Hn) as [Hlo Hhi].
  pose proof (Z.log2_nonneg n) as H0.
  split.
  - rewrite <- pow2_Z by exact H0. rewrite <- Zle_Qle. exact Hlo.
  - rewrite <- pow2_Z by lia. rewrite <- Zlt_Qlt.
    replace (Z.log2 n + 1)%Z with (Z.succ (Z.log2 n)) by lia. exact Hhi.
Qed.

Lemma ilog2_spec (x : Q) :
  0 < x -> 2 ^ ilog2 x <= x /\ x < 2 ^ (ilog2 x + 1).
Proof.
  intros Hx. unfold ilog2.
  destruct x as [a b]; cbn [Qnum Qden].
  assert (Ha : (0 < a)%Z) by (unfold Qlt in Hx; cbn in Hx; lia).
  destruct (Zlog2_Q a Ha) as [Ha1 Ha2].
  destruct (Zlog2_Q (Zpos b) eq_refl) as [Hb1 Hb2].
  set (la := Z.log2 a) in *. set (lb := Z.log2 (Zpos b)) in *.
  pose proof (pow2_pos lb) as Plb.
  pose proof (pow2_pos (la - lb)) as Pd.
  assert (E1 : 2 ^ la == 2 ^ (la - lb) * 2 ^ lb)
    by (rewrite <- pow2_add; replace (la - lb + lb)%Z with la by lia; reflexivity).
  pose proof (pow2_succ la) as E2.
  pose proof (pow2_succ lb) as E3.
  pose proof (pow2_succ (la - lb)) as E4.
  assert (E5 : 2 ^ (la - lb) == 2 * 2 ^ (la - lb - 1))
    by (rewrite <- pow2_succ; replace (la - lb - 1 + 1)%Z with (la - lb)%Z by lia;
        reflexivity).
  assert (Hb : 0 < inject_Z (Zpos b)) by (rewrite <- (Zlt_Qlt 0); reflexivity).
  assert (Ex : (a # b) * inject_Z (Zpos b) == inject_Z a)
    by (rewrite Qmake_Qdiv; field; lra).
  destruct (Qle_bool (2 ^ (la - lb)) (a # b)) eqn:Hc.
  - apply Qle_bool_iff in Hc. split; [exact Hc | nra].
  - assert (Hlt : a # b < 2 ^ (la - lb)).
    { apply Qnot_le_lt. intro H. apply Qle_bool_iff in H. congruence. }
    replace (la - lb - 1 + 1)%Z with (la - lb)%Z by lia.
    split; [nra | exact Hlt].
Qed.

(** *** Rounding to 53 bits *)

Lemma Qabs_pos_eq (x : Q) : 0 < x -> Qabs x = x.
Proof.
  destruct x as [a b]. unfold Qlt, Qabs; cbn. intros H.
  rewrite Z.abs_eq by lia. reflexivity.
Qed.

Lemma round53_pos (x : Q) :
  0 < x -> round53 x == inject_Z (rint (x / 2 ^ expo x)) * 2 ^ expo x.
Proof.
  intros Hx. unfold round53, expo.
  destruct (Qeq_bool x 0) eqn:E.
  - apply Qeq_bool_iff in E. lra.
  - rewrite (Qabs_pos_eq x Hx). apply Qred_correct.
Qed.

Lemma scaled_bounds (x : Q) :
  0 < x ->
  inject_Z (2 ^ 52) <= x / 2 ^ expo x /\ x / 2 ^ expo x < inject_Z (2 ^ 53).
Proof.
  intros Hx. unfold expo.
  destruct (ilog2_spec x Hx) as [Hlo Hhi].
  set (l := ilog2 x) in *.
  pose proof (pow2_pos (l - 52)) as Pe.
  assert (E1 : 2 ^ l == inject_Z (2 ^ 52) * 2 ^ (l - 52)).
  { rewrite pow2_Z by lia. rewrite <- pow2_add.
    replace (52 + (l - 52))%Z with l by lia. reflexivity. }
  assert (E2 : 2 ^ (l + 1) == inject_Z (2 ^ 53) * 2 ^ (l - 52)).
  { rewrite pow2_Z by lia. rewrite <- pow2_add.
    replace (53 + (l - 52))%Z with (l + 1)%Z by lia. reflexivity. }
  split.
  - apply Qle_shift_div_l; [exact Pe | rewrite <- E1; exact Hlo].
  - apply Qlt_shift_div_r; [exact Pe | rewrite <- E2; exact Hhi].
Qed.

(** The rounded value stays in the binade of [x]. *)
Lemma round53_binade (x : Q) :
  0 < x ->
  2 ^ ilog2 x <= round53 x /\ round53 x <= 2 ^ (ilog2 x + 1).
Proof.
  intros Hx. rewrite (round53_pos x Hx).
  destruct (scaled_bounds x Hx) as [Hlo Hhi].
  pose proof (rint_mono _ _ Hlo) as Rlo. rewrite rint_Z in Rlo.
  pose proof (rint_mono _ _ (Qlt_le_weak _ _ Hhi)) as Rhi. rewrite rint_Z in Rhi.
  unfold expo in *. set (l := ilog2 x) in *.
  pose proof (pow2_pos (l - 52)) as Pe.
  assert (E1 : 2 ^ l == inject_Z (2 ^ 52) * 2 ^ (l - 52)).
  { rewrite pow2_Z by lia. rewrite <- pow2_add.
    replace (52 + (l - 52))%Z with l by lia. reflexivity. }
  assert (E2 : 2 ^ (l + 1) == inject_Z (2 ^ 53) * 2 ^ (l - 52)).
  { rewrite pow2_Z by lia. rewrite <- pow2_add.
    replace (53 + (l - 52))%Z with (l + 1)%Z by lia. reflexivity. }
  rewrite E1, E2. rewrite Zle_Qle in Rlo, Rhi.
  split; apply Qmult_le_r; assumption.
Qed.

Lemma round53_gt_0 (x : Q) : 0 < x -> 0 < round53 x.
Proof.
  intros Hx. destruct (round53_binade x Hx) as [H _].
  pose proof (pow2_pos (ilog2 x)). lra.
Qed.

Lemma ilog2_mono (x y : Q) : 0 < x -> x <= y -> (ilog2 x <= ilog2 y)%Z.
Proof.
  intros Hx Hxy.
  destruct (ilog2_spec x Hx) as [Hlo _].
  assert (Hy : 0 < y) by lra.
  destruct (ilog2_spec y Hy) as [_ Hhi].
  assert (H : 2 ^ ilog2 x < 2 ^ (ilog2 y + 1)) by lra.
  apply pow2_lt_inv in H. lia.
Qed.

Lemma round53_mono (x y : Q) : 0 < x -> x <= y -> round53 x <= round53 y.
Proof.
  intros Hx Hxy.
  assert (Hy : 0 < y) by lra.
  pose proof (ilog2_mono x y Hx Hxy) as Hl.
  destruct (Z.eq_dec (ilog2 x) (ilog2 y)) as [E | N].
  - rewrite (round53_pos x Hx), (round53_pos y Hy). unfold expo. rewrite E.
    pose proof (pow2_pos (ilog2 y - 52)) as Pe.
    apply Qmult_le_r; [exact Pe |].
    rewrite <- Zle_Qle. apply rint_mono.
    apply Qmult_le_r with (z := / 2 ^ (ilog2 y - 52)) in Hxy;
      [exact Hxy | apply Qinv_lt_0_compat; exact Pe].
  - destruct (round53_binade x Hx) as [_ Hhi].
    destruct (round53_binade y Hy) as [Hlo _].
    assert (H : 2 ^ (ilog2 x + 1) <= 2 ^ ilog2 y) by (apply pow2_le; lia).
    lra.
Qed.

Lemma round53_le_1 (x : Q) : 0 < x -> x <= 1 -> round53 x <= 1.
Proof.
  intros Hx H. pose proof (round53_mono _ _ Hx H) as M.
  assert (E : round53 1 == 1) by reflexivity. lra.
Qed.

Lemma round53_le_100 (x : Q) : 0 < x -> x <= 100 -> round53 x <= 100.
Proof.
  intros Hx H. pose proof (round53_mono _ _ Hx H) as M.
  assert (E : round53 100 == 100) by reflexivity. lra.
Qed.

(** Integers below 2^53 convert exactly. *)
Lemma i8tod_pos (n : Z) : (0 < n)%Z -> 0 < i8tod n.
Proof.
  intros H. apply round53_gt_0. rewrite <- (Zlt_Qlt 0). exact H.
Qed.

Lemma i8tod_mono (m n : Z) : (0 < m <= n)%Z -> i8tod m <= i8tod n.
Proof.
  intros [H0 H]. apply round53_mono.
  - rewrite <- (Zlt_Qlt 0). exact H0.
  - rewrite <- Zle_Qle. exact H.
Qed.

Lemma round53_error (x : Q) :
  0 < x -> Qabs (round53 x - x) <= x * ulp_half.
Proof.
  intros Hx. rewrite (round53_pos x Hx).
  destruct (scaled_bounds x Hx) as [Hlo _].
  pose proof (rint_near (x / 2 ^ expo x)) as N.
  pose proof (pow2_pos (expo x)) as Pe.
  set (p := 2 ^ expo x) in *. set (s := x / p) in *.
  assert (Es : x == s * p) by (unfold s; field; lra).
  apply Qabs_Qle_condition in N. destruct N as [N1 N2].
  apply Qabs_Qle_condition.
  change (inject_Z (2 ^ 52)) with (4503599627370496 # 1) in Hlo.
  unfold half in *. unfold ulp_half.
  change (1 # 2 ^ 53) with (1 # 9007199254740992).
  rewrite Es. set (k := inject_Z (rint s)) in *.
  split; nra.
Qed.

Lemma round53_exact (n : Z) :
  (0 < n < 2 ^ 53)%Z -> round53 (inject_Z n) == inject_Z n.
Proof.
  intros [H0 H].
  assert (Hx : 0 < inject_Z n) by (rewrite <- (Zlt_Qlt 0); exact H0).
  rewrite (round53_pos _ Hx). unfold expo.
  destruct (ilog2_spec _ Hx) as [Hlo _].
  assert (Hl : (ilog2 (inject_Z n) < 53)%Z).
  { apply pow2_lt_inv. rewrite <- (pow2_Z 53) by lia.
    rewrite Zlt_Qlt in H. lra. }
  set (l := ilog2 (inject_Z n)) in *.
  assert (E : inject_Z n / 2 ^ (l - 52) == inject_Z (n * 2 ^ (52 - l))).
  { rewrite inject_Z_mult, pow2_Z by lia.
    replace (52 - l)%Z with (- (l - 52))%Z by lia.
    rewrite Qpower_opp. reflexivity. }
  rewrite E, rint_Z, inject_Z_mult, pow2_Z by lia.
  rewrite <- Qmult_assoc, <- pow2_add.
  replace (52 - l + (l - 52))%Z with 0%Z by lia.
  change (2 ^ 0) with 1. ring.
Qed.

End Float8Facts.

(* ================================================================= *)
(** ** The confidence expression *)

Section Confidence.
Import Float8 Float8Facts.
Local Open Scope Q_scope.

Lemma quotient_bounds (m t : Z) :
  (1 <= m <= t)%Z ->
  0 < round53 (i8tod m / i8tod t) /\ round53 (i8tod m / i8tod t) <= 1.
Proof.
  intros H.
  assert (Hm : 0 < i8tod m) by (apply i8tod_pos; lia).
  assert (Ht : 0 < i8tod t) by (apply i8tod_pos; lia).
  assert (Hmt : i8tod m <= i8tod t) by (apply i8tod_mono; lia).
  assert (Hq : 0 < i8tod m / i8tod t).
  { apply Qlt_shift_div_l; [exact Ht | lra]. }
  assert (Hq1 : i8tod m / i8tod t <= 1).
  { apply Qle_shift_div_r; [exact Ht | lra]. }
  split; [apply round53_gt_0 | apply round53_le_1]; assumption.
Qed.

Lemma product_bounds (m t : Z) :
  (1 <= m <= t)%Z ->
  0 < round53 (round53 (i8tod m / i8tod t) * i4tod 100) /\
  round53 (round53 (i8tod m / i8tod t) * i4tod 100) <= 100.
Proof.
  intros H. destruct (quotient_bounds m t H) as [Hlo Hhi].
  assert (E : i4tod 100 == 100) by reflexivity.
  split; [apply round53_gt_0 | apply round53_le_100]; rewrite E; lra.
Qed.

Lemma score_bounds (m t : Z) : (1 <= m <= t)%Z -> (0 <= score m t <= 100)%Z.
Proof.
  intros H. destruct (product_bounds m t H) as [Hlo Hhi]. unfold score.
  split.
  - rewrite <- (rint_Z 0). apply rint_mono.
    change (inject_Z 0) with 0. lra.
  - rewrite <- (rint_Z 100). apply rint_mono. exact Hhi.
Qed.

(** On a non-empty profile the expression neither raises nor is NULL. *)
Lemma confidence_defined (m t : Z) :
  (1 <= m <= t)%Z -> confidence m t = Ok (Some (score m t)).
Proof.
  intros H. unfold confidence, nullif.
  destruct (Z.eqb_spec t 0) as [E | _]; [lia |].
  unfold float8div.
  assert (Ht : 0 < i8tod t) by (apply i8tod_pos; lia).
  destruct (Qeq_bool (i8tod t) 0) eqn:E0.
  { apply Qeq_bool_iff in E0. lra. }
  cbn [bind]. unfold float8mul. cbn [bind]. unfold dtoi4.
  fold (score m t).
  pose proof (score_bounds m t H) as B.
  destruct ((- 2 ^ 31 <=? score m t)%Z && (score m t <? 2 ^ 31)%Z) eqn:R.
  - reflexivity.
  - apply andb_false_iff in R. destruct R as [R | R].
    + apply Z.leb_gt in R. lia.
    + apply Z.ltb_ge in R. lia.
Qed.

(** An empty profile makes the divisor NULL, and so the score. *)
Lemma confidence_null (m : Z) : confidence m 0 = Ok None.
Proof. reflexivity. Qed.
Lemma score_nearest (m t : Z) :
  (1 <= m <= t)%Z -> (t < 2 ^ 44)%Z ->
  (2 * Z.abs (score m t * t - 100 * m) <= t)%Z.
Proof.
  intros H Ht.
  destruct (quotient_bounds m t H) as [Q0 Q1].
  unfold score.
  assert (Em : i8tod m == inject_Z m) by (apply round53_exact; lia).
  assert (Et : i8tod t == inject_Z t) by (apply round53_exact; lia).
  assert (Hm : 1 <= inject_Z m) by (rewrite <- (Zle_Qle 1); lia).
  assert (Hmt : inject_Z m <= inject_Z t) by (rewrite <- Zle_Qle; lia).
  assert (Ht44 : inject_Z t < inject_Z (2 ^ 44)) by (rewrite <- Zlt_Qlt; lia).
  change (inject_Z (2 ^ 44)) with (17592186044416 # 1) in Ht44.
  assert (Hr : 0 < i8tod m / i8tod t).
  { apply Qlt_shift_div_l; rewrite ?Em, ?Et; lra. }
  pose proof (round53_error _ Hr) as E1.
  assert (E100 : i4tod 100 == 100) by reflexivity.
  assert (Hp : 0 < round53 (i8tod m / i8tod t) * i4tod 100) by (rewrite E100; lra).
  pose proof (round53_error _ Hp) as E2.
  pose proof (rint_near (round53 (round53 (i8tod m / i8tod t) * i4tod 100))) as E3.
  set (r := i8tod m / i8tod t) in *.
  assert (Er : r * inject_Z t == inject_Z m).
  { unfold r. rewrite Em, Et. field. lra. }
  set (q1 := round53 r) in *.
  set (q2 := round53 (q1 * i4tod 100)) in *.
  set (k := rint q2) in *.
  apply Qabs_Qle_condition in E1, E2, E3.
  unfold half, ulp_half in *.
  change (1 # 2 ^ 53) with (1 # 9007199254740992) in *.
  rewrite E100 in E2.
  assert (Hr1 : r <= 1) by (apply Qle_shift_div_r; rewrite ?Em, ?Et; lra).
  assert (D : - (1 # 2) - (25 # 1125899906842624) <= inject_Z k - 100 * r
              /\ inject_Z k - 100 * r <= (1 # 2) + (25 # 1125899906842624)).
  { split; lra. }
  assert (G : - inject_Z t - 1 < 2 * (inject_Z k * inject_Z t - 100 * inject_Z m)
              /\ 2 * (inject_Z k * inject_Z t - 100 * inject_Z m) < inject_Z t + 1).
  { rewrite <- Er. destruct D as [D1 D2]. split; nra. }
  destruct G as [G1 G2].
  assert (G1' : (- t - 1 < 2 * (k * t - 100 * m))%Z).
  { rewrite Zlt_Qlt. unfold Z.sub.
    repeat (rewrite inject_Z_plus || rewrite inject_Z_mult || rewrite inject_Z_opp).
    change (inject_Z 2) with 2. change (inject_Z 100) with 100.
    change (inject_Z 1) with 1. lra. }
  assert (G2' : (2 * (k * t - 100 * m) < t + 1)%Z).
  { rewrite Zlt_Qlt. unfold Z.sub.
    repeat (rewrite inject_Z_plus || rewrite inject_Z_mult || rewrite inject_Z_opp).
    change (inject_Z 2) with 2. change (inject_Z 100) with 100.
    change (inject_Z 1) with 1. lra. }
  lia.
Qed.

End Confidence.

(* ================================================================= *)
(** ** Lists, [mapM] and [ORDER BY] *)

Section ListFacts.
Context {A B : Type}.

Lemma mapM_Ok_Forall2 (f : A -> result B) (l : list A) (bs : list B) :
  mapM f l = Ok bs -> Forall2 (fun a b => f a = Ok b) l bs.
Proof.
  revert bs. induction l as [| a l IH]; intros bs H; cbn in H.
  - injection H as <-. constructor.
  - destruct (f a) as [b |] eqn:Ea; cbn in H; [| discriminate].
    destruct (mapM f l) as [bs' |]; cbn in H; [| discriminate].
    injection H as <-. constructor; auto.
Qed.

Lemma mapM_total (f : A -> result B) (l : list A) :
  (forall a, In a l -> exists b, f a = Ok b) -> exists bs, mapM f l = Ok bs.
Proof.
  induction l as [| a l IH]; intros H; cbn.
  - eexists; reflexivity.
  - destruct (H a (or_introl eq_refl)) as [b ->].
    destruct IH as [bs ->]; [intros; apply H; right; assumption |].
    eexists; reflexivity.
Qed.

Lemma Forall2_In_r (R : A -> B -> Prop) (l : list A) (bs : list B) (b : B) :
  Forall2 R l bs -> In b bs -> exists a, In a l /\ R a b.
Proof.
  induction 1 as [| a b' l bs Hab _ IH]; intros Hin; [contradiction |].
  destruct Hin as [-> | Hin].
  - exists a; split; [left; reflexivity | exact Hab].
  - destruct (IH Hin) as (a' & Ha' & HR). exists a'; split; [right |]; assumption.
Qed.

Lemma In_firstn (n : nat) (l : list A) (x : A) : In x (firstn n l) -> In x l.
Proof.
  intros H. rewrite <- (firstn_skipn n l). apply in_or_app. left. exact H.
Qed.



(** *** The insertion used by [order_by] *)

Variable leb : A -> A -> bool.
Hypothesis leb_total : forall a b, leb a b = false -> leb b a = true.

Lemma insert_by_perm (x : A) (l : list A) : Permutation (x :: l) (insert_by leb x l).
Proof.
  induction l as [| y l IH]; cbn.
  - apply Permutation_refl.
  - destruct (leb x y); [apply Permutation_refl |].
    eapply Permutation_trans; [apply perm_swap |].
    apply perm_skip. exact IH.
Qed.

Lemma insert_by_sorted (x : A) (l : list A) :
  Sorted (fun a b => leb a b = true) l ->
  Sorted (fun a b => leb a b = true) (insert_by leb x l).
Proof.
  induction l as [| y l IH]; intros H; cbn.
  - repeat constructor.
  - destruct (leb x y) eqn:E.
    + constructor; [exact H | constructor; exact E].
    + apply Sorted_inv in H. destruct H as [Hs Hh].
      constructor; [apply IH; exact Hs |].
      destruct l as [| z l]; cbn.
      * constructor. apply leb_total. exact E.
      * destruct (leb x z); constructor.
        -- apply leb_total. exact E.
        -- inversion Hh; assumption.
Qed.

Lemma order_by_ordering (l : list A) : ordering_of leb l (order_by leb l).
Proof.
  unfold ordering_of, order_by. induction l as [| x l [IHp IHs]]; cbn.
  - split; constructor.
  - split.
    + eapply Permutation_trans; [apply perm_skip; exact IHp |].
      apply insert_by_perm.
    + apply insert_by_sorted. exact IHs.
Qed.

End ListFacts.

(** *** Two orderings of the same rows *)

Section Orderings.
Context {A : Type}.
Variable R : A -> A -> Prop.
Hypothesis R_trans : forall a b c, R a b -> R b c -> R a c.
Hypothesis R_antisym : forall a b, R a b -> R b a -> a = b.

Lemma sorted_perm_unique (l1 l2 : list A) :
  Sorted R l1 -> Sorted R l2 -> Permutation l1 l2 -> l1 = l2.
Proof.
  intros S1 S2.
  apply Sorted_StronglySorted in S1; [| exact R_trans].
  apply Sorted_StronglySorted in S2; [| exact R_trans].
  revert l2 S2. induction S1 as [| a l1 S1 IH F1]; intros l2 S2 P.
  - apply Permutation_nil in P. symmetry. exact P.
  - destruct S2 as [| b l2 S2 F2].
    + apply Permutation_sym, Permutation_nil in P. discriminate.
    + assert (E : a = b).
      { assert (Ha : In a (b :: l2))
          by (eapply Permutation_in; [exact P | left; reflexivity]).
        assert (Hb : In b (a :: l1))
          by (eapply Permutation_in;
              [apply Permutation_sym; exact P | left; reflexivity]).
        destruct Ha as [-> | Ha]; [reflexivity |].
        destruct Hb as [-> | Hb]; [reflexivity |].
        rewrite Forall_forall in F1, F2.
        apply R_antisym; [apply F1 | apply F2]; assumption. }
      subst b. f_equal. apply IH; [exact S2 |].
      eapply Permutation_cons_inv. exact P.
Qed.

End Orderings.

Lemma Sorted_map {A B : Type} (f : A -> B) (R : A -> A -> Prop)
    (Q : B -> B -> Prop) (l : list A) :
  (forall a b, R a b -> Q (f a) (f b)) -> Sorted R l -> Sorted Q (map f l).
Proof.
  intros H. induction 1 as [| a l S IH Hh]; cbn; constructor; [exact IH |].
  destruct Hh; cbn; constructor. apply H. assumption.
Qed.

Lemma map_inj_perm {A B : Type} (f : A -> B) (l1 l2 : list A) :
  NoDup (map f l1) -> Permutation l1 l2 -> map f l1 = map f l2 -> l1 = l2.
Proof.
  revert l2. induction l1 as [| a l1 IH]; intros l2 N P E.
  - destruct l2; [reflexivity | discriminate].
  - destruct l2 as [| b l2]; [discriminate |].
    cbn in E. injection E as Eab E.
    apply NoDup_cons_iff in N. destruct N as [Na N].
    assert (Hab : a = b).
    { assert (Hb : In b (a :: l1))
        by (eapply Permutation_in;
            [apply Permutation_sym; exact P | left; reflexivity]).
      destruct Hb as [-> | Hb]; [reflexivity |].
      exfalso. apply Na. rewrite Eab. apply in_map. exact Hb. }
    subst b. f_equal. apply IH; [exact N | | exact E].
    eapply Permutation_cons_inv. exact P.
Qed.

(** *** The sort keys of [ORDER BY 6 DESC, 4 DESC] *)

Lemma precedes_key (a b : diagnose_row) :
  precedes a b = true -> key_precedes (sort_key a) (sort_key b).
Proof.
  unfold precedes, key_precedes, sort_key; cbn.
  destruct (desc_nulls_first _ _); intros H; try discriminate; auto.
  apply Z.leb_le. exact H.
Qed.

Lemma key_precedes_trans (a b c : option Z * Z) :
  key_precedes a b -> key_precedes b c -> key_precedes a c.
Proof.
  destruct a as [[x |] m], b as [[y |] n], c as [[z |] p];
    unfold key_precedes; cbn; try tauto; try lia.
  destruct (Z.compare_spec y x), (Z.compare_spec z y), (Z.compare_spec z x);
    try tauto; lia.
Qed.

Lemma key_precedes_antisym (a b : option Z * Z) :
  key_precedes a b -> key_precedes b a -> a = b.
Proof.
  destruct a as [[x |] m], b as [[y |] n];
    unfold key_precedes; cbn; try tauto.
  - destruct (Z.compare_spec y x), (Z.compare_spec x y); try tauto; try lia.
    intros; f_equal; [f_equal |]; lia.
  - intros; f_equal; lia.
Qed.

Lemma precedes_total (a b : diagnose_row) :
  precedes a b = false -> precedes b a = true.
Proof.
  unfold precedes.
  destruct (confidence_score a) as [x |], (confidence_score b) as [y |]; cbn;
    try discriminate; try reflexivity.
  - rewrite (Z.compare_antisym y x).
    destruct (y ?= x)%Z; cbn; try discriminate; try reflexivity.
    intros H. apply Z.leb_gt in H. apply Z.leb_le. lia.
  - intros H. apply Z.leb_gt in H. apply Z.leb_le. lia.
Qed.

Lemma orderings_same_keys (rows l1 l2 : list diagnose_row) :
  ordering_of precedes rows l1 -> ordering_of precedes rows l2 ->
  map sort_key l1 = map sort_key l2.
Proof.
  intros [P1 S1] [P2 S2].
  apply sorted_perm_unique with (R := key_precedes).
  - exact key_precedes_trans.
  - exact key_precedes_antisym.
  - eapply Sorted_map; [| exact S1]. intros a b. apply precedes_key.
  - eapply Sorted_map; [| exact S2]. intros a b. apply precedes_key.
  - apply Permutation_map.
    eapply Permutation_trans; [apply Permutation_sym; exact P1 | exact P2].
Qed.

Lemma ordering_unique (rows l1 l2 : list diagnose_row) :
  NoDup (map sort_key rows) ->
  ordering_of precedes rows l1 -> ordering_of precedes rows l2 -> l1 = l2.
Proof.
  intros N O1 O2.
  pose proof (orderings_same_keys _ _ _ O1 O2) as E.
  destruct O1 as [P1 _], O2 as [P2 _].
  apply map_inj_perm with (f := sort_key).
  - eapply Permutation_NoDup; [| exact N]. apply Permutation_map. exact P1.
  - eapply Permutation_trans; [apply Permutation_sym; exact P1 | exact P2].
  - exact E.
Qed.

(* ================================================================= *)
(** ** The groups of [diagnose] *)

Lemma from_join_In (db : database) (r : joined_row) :
  In r (from_join db) <->
  In (fst r) (diseases db) /\ In (snd r) (disease_symptoms db) /\
  dis_id (fst r) = ds_disease_id (snd r).
Proof.
  unfold from_join. rewrite in_flat_map. split.
  - intros (d & Hd & Hr). apply in_map_iff in Hr.
    destruct Hr as (ds & <- & Hds). apply filter_In in Hds.
    destruct Hds as [Hds E]. apply Z.eqb_eq in E. cbn. auto.
  - intros (Hd & Hds & E). exists (fst r). split; [exact Hd |].
    apply in_map_iff. exists (snd r). split; [destruct r; reflexivity |].
    apply filter_In. split; [exact Hds | apply Z.eqb_eq; exact E].
Qed.

Lemma group_key_eqb_eq (a b : group_key) : group_key_eqb a b = true <-> a = b.
Proof.
  unfold group_key_eqb. destruct (group_key_eq_dec a b); split; intros; 
    try reflexivity; try assumption; try discriminate; contradiction.
Qed.

Lemma group_by_In (rows : list joined_row) (g : group) :
  In g (group_by rows) ->
  (exists r, In r (snd g)) /\
  (forall r, In r (snd g) <-> In r rows /\ key_of r = fst g).
Proof.
  unfold group_by. intros H. apply in_map_iff in H.
  destruct H as (k & <- & Hk). apply nodup_In in Hk. cbn.
  assert (M : forall r, In r (filter (fun r => group_key_eqb (key_of r) k) rows)
                        <-> In r rows /\ key_of r = k).
  { intros r. rewrite filter_In, group_key_eqb_eq. reflexivity. }
  split; [| exact M].
  apply in_map_iff in Hk. destruct Hk as (r & E & Hr).
  exists r. apply M. auto.
Qed.

(** The symptoms a group counts are those of the disease's profile that
    occur in the input. *)
Lemma group_symptoms (db : database) (ids : list Z) (g : group) (s : Z) :
  In g (group_by (filter (where_clause ids) (from_join db))) ->
  In s (map (fun r : joined_row => ds_symptom_id (snd r)) (snd g)) <->
  In s (filter (fun s => eq_any s ids)
          (map ds_symptom_id
             (filter (fun ds => (ds_disease_id ds =? fst (fst (fst g)))%Z)
                (disease_symptoms db)))).
Proof.
  intros Hg. destruct (group_by_In _ _ Hg) as [[r0 Hr0] M].
  rewrite filter_In, !in_map_iff. split.
  - intros (r & <- & Hr). apply M in Hr. destruct Hr as [Hr Hk].
    apply filter_In in Hr. destruct Hr as [Hj Hw].
    apply from_join_In in Hj. destruct Hj as (_ & Hds & E).
    split; [| exact Hw].
    exists (snd r). split; [reflexivity |]. apply filter_In.
    split; [exact Hds |]. apply Z.eqb_eq. rewrite <- E, <- Hk. reflexivity.
  - intros [(ds & <- & Hds) Hw]. apply filter_In in Hds.
    destruct Hds as [Hds E]. apply Z.eqb_eq in E.
    apply M in Hr0. destruct Hr0 as [Hr0 Hk0].
    apply filter_In in Hr0. destruct Hr0 as [Hj0 _].
    apply from_join_In in Hj0. destruct Hj0 as (Hd0 & _ & _).
    exists (fst r0, ds). split; [reflexivity |]. apply M. split.
    + apply filter_In. split; [| exact Hw].
      apply from_join_In. cbn. split; [exact Hd0 |]. split; [exact Hds |].
      rewrite E, <- Hk0. reflexivity.
    + unfold key_of in *. cbn. exact Hk0.
Qed.

Lemma count_distinct_ext (l1 l2 : list Z) :
  (forall x, In x l1 <-> In x l2) -> count_distinct l1 = count_distinct l2.
Proof.
  intros H. unfold count_distinct. f_equal. apply Permutation_length.
  apply NoDup_Permutation; try apply NoDup_nodup.
  intros x. rewrite !nodup_In. apply H.
Qed.

Lemma matched_overlap (db : database) (ids : list Z) (g : group) :
  In g (group_by (filter (where_clause ids) (from_join db))) ->
  matched g = overlap db ids (fst (fst (fst g))).
Proof.
  intros Hg. unfold matched, overlap. apply count_distinct_ext.
  intros s. apply group_symptoms. exact Hg.
Qed.

Lemma matched_bounds (db : database) (ids : list Z) (g : group) :
  In g (group_by (filter (where_clause ids) (from_join db))) ->
  (1 <= matched g <= profile_size db (fst (fst (fst g))))%Z.
Proof.
  intros Hg. destruct (group_by_In _ _ Hg) as [[r0 Hr0] M]. split.
  - unfold matched, count_distinct.
    assert (Hin : In (ds_symptom_id (snd r0))
                    (nodup Z.eq_dec
                       (map (fun r : joined_row => ds_symptom_id (snd r)) (snd g)))).
    { apply nodup_In. apply in_map_iff. exists r0. auto. }
    destruct (nodup Z.eq_dec _); [contradiction | cbn; lia].
  - rewrite (matched_overlap _ _ _ Hg).
    unfold overlap, count_distinct, profile_size, count_star.
    apply inj_le.
    rewrite <- (length_map ds_symptom_id
                  (filter (fun ds => (ds_disease_id ds =? fst (fst (fst g)))%Z)
                     (disease_symptoms db))).
    apply NoDup_incl_length; [apply NoDup_nodup |].
    intros s Hs. apply nodup_In in Hs. apply filter_In in Hs. tauto.
Qed.

Lemma group_disease (db : database) (ids : list Z) (g : group) :
  In g (group_by (filter (where_clause ids) (from_join db))) ->
  In {| dis_id := fst (fst (fst g)); dis_name := snd (fst (fst g));
        dis_description := snd (fst g) |} (diseases db).
Proof.
  intros Hg. destruct (group_by_In _ _ Hg) as [[r Hr] M].
  apply M in Hr. destruct Hr as [Hr Hk].
  apply filter_In in Hr. destruct Hr as [Hj _].
  apply from_join_In in Hj. destruct Hj as (Hd & _ & _).
  rewrite <- Hk. unfold key_of. cbn. destruct (fst r). exact Hd.
Qed.

Lemma select_row_spec (db : database) (ids : list Z) (g : group) :
  In g (group_by (filter (where_clause ids) (from_join db))) ->
  exists c, select_row db g = Ok c /\ candidate_of db ids c.
Proof.
  intros Hg.
  pose proof (matched_bounds _ _ _ Hg) as B.
  pose proof (matched_overlap _ _ _ Hg) as O.
  pose proof (group_disease _ _ _ Hg) as D.
  unfold select_row. destruct g as [[[id name] descr] rows]. cbn in *.
  rewrite (confidence_defined _ _ B). cbn.
  eexists. split; [reflexivity |].
  unfold candidate_of; cbn. auto.
Qed.

(** The query never raises. *)
Lemma diagnose_rows_total (db : database) (ids : list Z) :
  exists rows, diagnose_rows db ids = Ok rows.
Proof.
  unfold diagnose_rows. apply mapM_total. intros g Hg.
  apply filter_In in Hg. destruct Hg as [Hg _].
  destruct (select_row_spec _ _ _ Hg) as (c & E & _). exists c. exact E.
Qed.

Lemma diagnose_rows_sound (db : database) (ids : list Z) (rows : list diagnose_row)
    (c : diagnose_row) :
  diagnose_rows db ids = Ok rows -> In c rows -> candidate_of db ids c.
Proof.
  unfold diagnose_rows. intros H Hc.
  apply mapM_Ok_Forall2 in H.
  destruct (Forall2_In_r _ _ _ c H Hc) as (g & Hg & E).
  apply filter_In in Hg. destruct Hg as [Hg _].
  destruct (select_row_spec _ _ _ Hg) as (c' & E' & C).
  rewrite E in E'. injection E' as <-. exact C.
Qed.

Lemma diagnose_returns_sound (db : database) (ids : list Z) (out : list diagnose_row)
    (c : diagnose_row) :
  diagnose_returns db ids out -> In c out -> candidate_of db ids c.
Proof.
  intros (rows & sorted & H & [P _] & ->) Hc.
  apply In_firstn in Hc.
  apply (diagnose_rows_sound _ _ _ _ H).
  eapply Permutation_in; [apply Permutation_sym; exact P | exact Hc].
Qed.

(** Column 4 of a returned row is the number of distinct input symptoms in
    the profile of its disease. *)
Lemma match_count_is_overlap (db : database) (ids : list Z)
    (out : list diagnose_row) (c : diagnose_row) :
  diagnose_returns db ids out -> In c out ->
  match_count c = overlap db ids (disease_id c).
Proof.
  intros H Hc. destruct (diagnose_returns_sound _ _ _ _ H Hc) as (_ & M & _).
  exact M.
Qed.

(** The computed table is one of the tables the call may return. *)
Lemma diagnose_admissible (db : database) (ids : list Z) :
  exists out, diagnose db ids = Ok out /\ diagnose_returns db ids out.
Proof.
  destruct (diagnose_rows_total db ids) as [rows H].
  exists (firstn limit (order_by precedes rows)). split.
  - unfold diagnose. rewrite H. reflexivity.
  - exists rows, (order_by precedes rows). split; [exact H |]. split.
    + apply order_by_ordering. exact precedes_total.
    + reflexivity.
Qed.

Lemma diagnose_is_admissible (db : database) (ids : list Z) (out : list diagnose_row) :
  diagnose db ids = Ok out -> diagnose_returns db ids out.
Proof.
  intros H. destruct (diagnose_admissible db ids) as (out' & E & R).
  rewrite H in E. injection E as <-. exact R.
Qed.

(** The stored function, as computed, returns one of the admissible tables
    and only rows that are candidates. *)
Lemma diagnose_sound (db : database) (ids : list Z) (out : list diagnose_row)
    (c : diagnose_row) :
  diagnose db ids = Ok out -> In c out -> candidate_of db ids c.
Proof.
  intros H. apply diagnose_returns_sound. apply diagnose_is_admissible. exact H.
Qed.

(* ================================================================= *)
(** ** The binary64 reference agrees with [score] *)

Lemma grid_In (n : nat) (m t : Z) :
  (1 <= m <= t)%Z -> (t <= Z.of_nat n)%Z -> In (m, t) (Binary64.grid n).
Proof.
  intros Hm Ht. unfold Binary64.grid. apply in_flat_map.
  exists (Z.to_nat t). split.
  - apply in_seq. lia.
  - apply in_map_iff. exists (Z.to_nat m). split.
    + f_equal; lia.
    + apply in_seq. lia.
Qed.

Lemma binary64_agrees_on_grid :
  forallb Binary64.agrees (Binary64.grid 48) = true.
Proof. vm_compute. reflexivity. Qed.

(** For every profile of at most 48 symptoms, [score] is the value IEEE 754
    binary64 arithmetic gives. *)
Lemma score_is_binary64 (m t : Z) :
  (1 <= m <= t)%Z -> (t <= 48)%Z -> Binary64.ieee_score m t = Some (score m t).
Proof.
  intros Hm Ht.
  pose proof binary64_agrees_on_grid as G.
  rewrite forallb_forall in G.
  specialize (G (m, t) (grid_In 48 m t Hm Ht)).
  unfold Binary64.agrees in G. cbn [fst snd] in G.
  destruct (Binary64.ieee_score m t) as [s |]; [| discriminate].
  apply Z.eqb_eq in G. rewrite G. reflexivity.
Qed.

(** Rounding, not truncation; ties go to the even integer, and a product
    that falls just below a tie rounds down. *)
Lemma score_examples :
  score 2 3 = 67%Z /\ score 1 3 = 33%Z /\ score 3 4 = 75%Z /\
  score 1 8 = 12%Z /\ score 3 8 = 38%Z /\ score 23 40 = 57%Z.
Proof. vm_compute. repeat split. Qed.

(* ================================================================= *)
(** ** Name resolution *)




(** A prefix or an extension of a symptom's name does not resolve, and
    case and surrounding white space do not matter. *)
Lemma resolution_examples :
  get_symptom_ids Scenario.A ["fev"; "feverish"; "head ache"; ""]%string
  = ([], []) /\
  get_symptom_ids Scenario.A ["  Cough"; "FATIGUE "]%string
  = ([3; 4]%Z, ["cough"; "fatigue"]%string).
Proof. split; vm_compute; reflexivity. Qed.


(* ================================================================= *)
(** ** Recommendations and [perform_diagnosis] *)

Lemma by_precaution_order_total (a b : recommendation) :
  by_precaution_order a b = false -> by_precaution_order b a = true.
Proof.
  unfold by_precaution_order, asc_nulls_last.
  destruct (rec_precaution_order a), (rec_precaution_order b);
    try discriminate; try reflexivity.
  intros H. apply Z.leb_gt in H. apply Z.leb_le. lia.
Qed.

Lemma get_recommendations_admissible (db : database) (id : Z) :
  get_recommendations_returns db id (get_recommendations db id).
Proof.
  exists (order_by by_precaution_order (recommendations_of db id)).
  split; [| reflexivity].
  apply order_by_ordering. exact by_precaution_order_total.
Qed.


Lemma perform_diagnosis_total (db : database) (ids : list Z) :
  exists results, perform_diagnosis db ids = Ok results.
Proof.
  destruct (diagnose_admissible db ids) as (out & E & _).
  unfold perform_diagnosis. rewrite E. cbn. eexists. reflexivity.
Qed.

(* ================================================================= *)
(** ** Duplicate ids in the input *)

Lemma eq_any_ext (ids ids' : list Z) (x : Z) :
  (forall y, In y ids <-> In y ids') -> eq_any x ids = eq_any x ids'.
Proof.
  intros H. unfold eq_any.
  destruct (existsb (Z.eqb x) ids) eqn:E1, (existsb (Z.eqb x) ids') eqn:E2;
    try reflexivity.
  - apply existsb_exists in E1. destruct E1 as (y & Hy & Ey).
    assert (E : existsb (Z.eqb x) ids' = true)
      by (apply existsb_exists; exists y; split; [apply H |]; assumption).
    congruence.
  - apply existsb_exists in E2. destruct E2 as (y & Hy & Ey).
    assert (E : existsb (Z.eqb x) ids = true)
      by (apply existsb_exists; exists y; split; [apply H |]; assumption).
    congruence.
Qed.

Lemma diagnose_rows_ext (db : database) (ids ids' : list Z) :
  (forall y, In y ids <-> In y ids') ->
  diagnose_rows db ids = diagnose_rows db ids'.
Proof.
  intros H. unfold diagnose_rows. do 3 f_equal.
  apply filter_ext. intros r. unfold where_clause. apply eq_any_ext. exact H.
Qed.

Lemma diagnose_rows_nodup (db : database) (ids : list Z) :
  diagnose_rows db (nodup Z.eq_dec ids) = diagnose_rows db ids.
Proof. apply diagnose_rows_ext. intros y. apply nodup_In. Qed.

(* ================================================================= *)
(** ** Scenario A *)

Lemma scenario_A_rows :
  diagnose_rows Scenario.A [1; 2; 3]%Z
  = Ok [Scenario.candidate 1 "Common Cold" 2 3 67;
        Scenario.candidate 2 "Flu" 3 4 75;
        Scenario.candidate 3 "Migraine" 1 1 100].
Proof. vm_compute. reflexivity. Qed.

(** Every table the call may return in scenario A is [Scenario.ranked]. *)
Lemma scenario_A_unique (out : list diagnose_row) :
  diagnose_returns Scenario.A [1; 2; 3]%Z out -> out = Scenario.ranked.
Proof.
  intros (rows & sorted & Hrows & Hord & ->).
  rewrite scenario_A_rows in Hrows. injection Hrows as <-.
  assert (E : sorted = order_by precedes
                [Scenario.candidate 1 "Common Cold" 2 3 67;
                 Scenario.candidate 2 "Flu" 3 4 75;
                 Scenario.candidate 3 "Migraine" 1 1 100]).
  { eapply ordering_unique; [| exact Hord |].
    - cbn. repeat constructor; cbn; intuition discriminate.
    - apply order_by_ordering. exact precedes_total. }
  rewrite E. vm_compute. reflexivity.
Qed.

(* ================================================================= *)
(** * The properties of the specification *)

(** C1, as stated, fails: in scenario A the candidate Common Cold, which
    matches 2 of its 3 symptoms, is returned with the score 67, not with
    [100 * 2 / 3 = 66]. *)
Lemma C1_truncation_refuted :
  exists out c,
    diagnose_returns Scenario.A [1; 2; 3]%Z out /\ In c out /\
    confidence_score c
    <> Some (100 * match_count c / total_symptoms c)%Z.
Proof.
  exists Scenario.ranked, (Scenario.candidate 1 "Common Cold" 2 3 67).
  split; [| split].
  - apply diagnose_is_admissible. vm_compute. reflexivity.
  - right; right; left; reflexivity.
  - vm_compute. discriminate.
Qed.

(** C1, amended: for every candidate the stored function returns, the
    confidence score is the double-precision product
    [(match_count / total_symptoms) * 100] cast to INTEGER, and the cast
    rounds: the score is an integer nearest to
    [100 * match_count / total_symptoms] (for profiles of fewer than 2^44
    symptoms, where the rounding errors of the two float operations cannot
    reach the next integer). *)
Theorem C1_confidence_is_rounded (db : database) (ids : list Z)
    (out : list diagnose_row) (c : diagnose_row) :
  diagnose_returns db ids out -> In c out ->
  exists s,
    confidence_score c = Some s /\
    s = score (match_count c) (total_symptoms c) /\
    ((total_symptoms c < 2 ^ 44)%Z ->
     (2 * Z.abs (s * total_symptoms c - 100 * match_count c)
      <= total_symptoms c)%Z).
Proof.
  intros H Hc.
  destruct (diagnose_returns_sound _ _ _ _ H Hc) as (_ & _ & _ & B & S).
  exists (score (match_count c) (total_symptoms c)).
  split; [exact S |]. split; [reflexivity |].
  intros Ht. apply score_nearest; assumption.
Qed.

Lemma C1_confidence_is_rounded_witness :
  exists s,
    Some 67%Z = Some s /\ s = score 2 3 /\
    ((3 < 2 ^ 44)%Z -> (2 * Z.abs (s * 3 - 100 * 2) <= 3)%Z).
Proof.
  apply (C1_confidence_is_rounded Scenario.A [1; 2; 3]%Z Scenario.ranked
           (Scenario.candidate 1 "Common Cold" 2 3 67)).
  - apply diagnose_is_admissible. vm_compute. reflexivity.
  - right; right; left; reflexivity.
Defined.

(** C2, as stated, fails: the ranking with Common Cold at 66 is not a table
    the call can return in scenario A. *)
Lemma C2_truncated_ranking_refuted :
  ~ diagnose_returns Scenario.A [1; 2; 3]%Z Scenario.truncated.
Proof.
  intros H. apply scenario_A_unique in H. discriminate H.
Qed.

(** C2, amended: in scenario A the names fever, headache, cough resolve to
    the ids 1, 2, 3, and diagnosing with them returns exactly Migraine
    (1, 1, 100), then Flu (3, 4, 75), then Common Cold (2, 3, 67). *)
Theorem C2_scenario_A :
  get_symptom_ids Scenario.A ["fever"; "headache"; "cough"]%string
  = ([1; 2; 3]%Z, ["fever"; "headache"; "cough"]%string) /\
  diagnose Scenario.A [1; 2; 3]%Z = Ok Scenario.ranked /\
  (forall out,
      diagnose_returns Scenario.A [1; 2; 3]%Z out <-> out = Scenario.ranked) /\
  map dx_row
      (match perform_diagnosis Scenario.A [1; 2; 3]%Z with
       | Ok results => results
       | Raise _ => []
       end) = Scenario.ranked.
Proof.
  split; [vm_compute; reflexivity |].
  split; [vm_compute; reflexivity |].
  split; [| vm_compute; reflexivity].
  intros out. split; [apply scenario_A_unique |].
  intros ->. apply diagnose_is_admissible. vm_compute. reflexivity.
Qed.



(** C4: the stored function never raises, and every candidate it returns
    has [1 <= match_count <= total_symptoms] and a score, not NULL, between
    0 and 100; [total_symptoms] is the size of the disease's profile, so a
    disease with an empty profile is not returned and the divisor is never
    zero. *)
Theorem C4_candidate_bounds (db : database) (ids : list Z) :
  (exists out, diagnose db ids = Ok out /\ diagnose_returns db ids out) /\
  forall out c,
    diagnose_returns db ids out -> In c out ->
    (1 <= match_count c <= total_symptoms c)%Z /\
    (exists s, confidence_score c = Some s /\ (0 <= s <= 100)%Z) /\
    total_symptoms c = profile_size db (disease_id c) /\
    nullif (total_symptoms c) 0 = Some (total_symptoms c) /\
    profile db (disease_id c) <> [].
Proof.
  split; [apply diagnose_admissible |].
  intros out c H Hc.
  destruct (diagnose_returns_sound _ _ _ _ H Hc) as (_ & _ & T & B & S).
  split; [exact B |]. split; [| split; [exact T | split]].
  - exists (score (match_count c) (total_symptoms c)).
    split; [exact S | apply score_bounds; exact B].
  - unfold nullif. destruct (Z.eqb_spec (total_symptoms c) 0); [lia | reflexivity].
  - intros E. rewrite T in B. unfold profile_size, count_star in B.
    unfold profile in E. apply map_eq_nil in E. rewrite E in B. cbn in B. lia.
Qed.

Lemma C4_candidate_bounds_witness :
  (1 <= 2 <= 3)%Z /\
  (exists s, Some 67%Z = Some s /\ (0 <= s <= 100)%Z) /\
  3%Z = profile_size Scenario.A 1 /\
  nullif 3 0 = Some 3%Z /\
  profile Scenario.A 1 <> [].
Proof.
  apply (proj2 (C4_candidate_bounds Scenario.A [1; 2; 3]%Z) Scenario.ranked
           (Scenario.candidate 1 "Common Cold" 2 3 67)).
  - apply diagnose_is_admissible. vm_compute. reflexivity.
  - right; right; left; reflexivity.
Defined.













(** C10: removing duplicate ids from the input changes nothing: the stored
    function computes the same table, may return the same tables, and
    [perform_diagnosis] returns the same results. *)
Theorem C10_duplicate_ids (db : database) (ids : list Z) :
  diagnose db (nodup Z.eq_dec ids) = diagnose db ids /\
  perform_diagnosis db (nodup Z.eq_dec ids) = perform_diagnosis db ids /\
  (forall out,
      diagnose_returns db (nodup Z.eq_dec ids) out
      <-> diagnose_returns db ids out) /\
  (forall results,
      perform_diagnosis_returns db (nodup Z.eq_dec ids) results
      <-> perform_diagnosis_returns db ids results).
Proof.
  assert (D : diagnose db (nodup Z.eq_dec ids) = diagnose db ids)
    by (unfold diagnose; rewrite diagnose_rows_nodup; reflexivity).
  assert (R : forall out,
             diagnose_returns db (nodup Z.eq_dec ids) out
             <-> diagnose_returns db ids out).
  { intros out. unfold diagnose_returns. rewrite diagnose_rows_nodup.
    reflexivity. }
  split; [exact D |]. split; [| split; [exact R |]].
  - unfold perform_diagnosis. rewrite D. reflexivity.
  - intros results. unfold perform_diagnosis_returns.
    split; intros (rows & H & T); exists rows; (split; [apply R; exact H | exact T]).
Qed.
(* ================================================================= *)
(** * Further properties of the engine *)

(** ** The score as a function of the match count *)

Section ScoreFacts.
Import Float8 Float8Facts.
Local Open Scope Q_scope.

Lemma round53_eq (x y : Q) : 0 < x -> x == y -> round53 x == round53 y.
Proof.
  intros Hx E. apply Qle_antisym; apply round53_mono; lra.
Qed.

(** More matched symptoms of the same profile never give a lower score. *)
Lemma score_mono (m m' t : Z) :
  (1 <= m <= m')%Z -> (m' <= t)%Z -> (score m t <= score m' t)%Z.
Proof.
  intros Hm Ht. unfold score.
  assert (Pm : 0 < i8tod m) by (apply i8tod_pos; lia).
  assert (Pt : 0 < i8tod t) by (apply i8tod_pos; lia).
  assert (Mm : i8tod m <= i8tod m') by (apply i8tod_mono; lia).
  assert (Q0 : 0 < i8tod m / i8tod t)
    by (apply Qlt_shift_div_l; [exact Pt | lra]).
  assert (Q1 : i8tod m / i8tod t <= i8tod m' / i8tod t).
  { apply Qmult_le_r with (z := / i8tod t) in Mm;
      [exact Mm | apply Qinv_lt_0_compat; exact Pt]. }
  pose proof (round53_gt_0 _ Q0) as R0.
  pose proof (round53_mono _ _ Q0 Q1) as R1.
  assert (E : i4tod 100 == 100) by reflexivity.
  apply rint_mono. apply round53_mono; rewrite E; lra.
Qed.

(** A profile matched completely scores 100. *)
Lemma score_full (t : Z) : (1 <= t)%Z -> score t t = 100%Z.
Proof.
  intros Ht. unfold score.
  assert (Pt : 0 < i8tod t) by (apply i8tod_pos; lia).
  assert (E1 : i8tod t / i8tod t == 1) by (field; lra).
  assert (R1 : round53 (i8tod t / i8tod t) == 1).
  { rewrite (round53_eq (i8tod t / i8tod t) 1); [reflexivity | lra | exact E1]. }
  assert (E100 : i4tod 100 == 100) by reflexivity.
  assert (E2 : round53 (i8tod t / i8tod t) * i4tod 100 == 100)
    by (rewrite R1, E100; reflexivity).
  assert (R2 : round53 (round53 (i8tod t / i8tod t) * i4tod 100) == inject_Z 100).
  { rewrite (round53_eq (round53 (i8tod t / i8tod t) * i4tod 100) 100);
      [reflexivity | lra | exact E2]. }
  rewrite R2. apply rint_Z.
Qed.

End ScoreFacts.

(** ** What the stored function returns, and what it leaves out *)

Lemma eq_any_In (x : Z) (ids : list Z) : eq_any x ids = true <-> In x ids.
Proof.
  unfold eq_any. rewrite existsb_exists. split.
  - intros (y & Hy & E). apply Z.eqb_eq in E. subst y. exact Hy.
  - intros H. exists x. split; [exact H | apply Z.eqb_refl].
Qed.

Lemma overlap_mono (db : database) (ids ids' : list Z) (id : Z) :
  incl ids ids' -> (overlap db ids id <= overlap db ids' id)%Z.
Proof.
  intros H. unfold overlap, count_distinct. apply inj_le.
  apply NoDup_incl_length; [apply NoDup_nodup |].
  intros s Hs. apply nodup_In in Hs. apply nodup_In.
  apply filter_In in Hs. destruct Hs as [Hs E].
  apply filter_In. split; [exact Hs |].
  apply eq_any_In. apply H. apply eq_any_In. exact E.
Qed.

Lemma overlap_all (db : database) (ids : list Z) (id : Z) :
  incl (profile db id) ids -> NoDup (profile db id) ->
  overlap db ids id = profile_size db id.
Proof.
  intros H N. unfold overlap, count_distinct, profile_size, count_star.
  f_equal. rewrite nodup_fixed_point.
  - assert (E : filter (fun s => eq_any s ids) (profile db id) = profile db id).
    { apply forallb_filter_id. apply forallb_forall. intros s Hs.
      apply eq_any_In. apply H. exact Hs. }
    rewrite E. unfold profile. apply length_map.
  - apply NoDup_filter. exact N.
Qed.

Lemma select_row_key (db : database) (g : group) (c : diagnose_row) :
  select_row db g = Ok c ->
  (disease_id c, disease_name c, description c) = fst g /\
  match_count c = matched g.
Proof.
  unfold select_row. destruct g as [[[id name] descr] rows]; cbn.
  destruct (confidence _ _) as [s |]; cbn; [| discriminate].
  intros H. injection H as <-. cbn. auto.
Qed.

Lemma Forall2_In_l {A B : Type} (R : A -> B -> Prop) (l : list A)
    (bs : list B) (a : A) :
  Forall2 R l bs -> In a l -> exists b, In b bs /\ R a b.
Proof.
  induction 1 as [| a' b l bs Hab _ IH]; intros Hin; [contradiction |].
  destruct Hin as [-> | Hin].
  - exists b; split; [left; reflexivity | exact Hab].
  - destruct (IH Hin) as (b' & Hb' & HR). exists b'; split; [right |]; assumption.
Qed.

(** Every disease that shares a symptom with the input is a candidate. *)
Lemma diagnose_rows_complete (db : database) (ids : list Z)
    (rows : list diagnose_row) (d : disease) (ds : disease_symptom) :
  diagnose_rows db ids = Ok rows ->
  In d (diseases db) -> In ds (disease_symptoms db) ->
  ds_disease_id ds = dis_id d -> In (ds_symptom_id ds) ids ->
  exists c,
    In c rows /\ disease_id c = dis_id d /\ disease_name c = dis_name d /\
    description c = dis_description d.
Proof.
  intros H Hd Hds E Hin.
  set (joined := filter (where_clause ids) (from_join db)).
  assert (Hr : In (d, ds) joined).
  { apply filter_In. split.
    - apply from_join_In. cbn. auto.
    - unfold where_clause. cbn. apply eq_any_In. exact Hin. }
  assert (Hg : In (key_of (d, ds),
                   filter (fun r => group_key_eqb (key_of r) (key_of (d, ds))) joined)
                  (group_by joined)).
  { unfold group_by. apply in_map_iff. exists (key_of (d, ds)).
    split; [reflexivity |]. apply nodup_In. apply in_map. exact Hr. }
  pose proof (matched_bounds db ids _ Hg) as B.
  unfold diagnose_rows in H. apply mapM_Ok_Forall2 in H.
  fold joined in H.
  assert (Hh : In (key_of (d, ds),
                   filter (fun r => group_key_eqb (key_of r) (key_of (d, ds))) joined)
                  (filter having (group_by joined))).
  { apply filter_In. split; [exact Hg |]. unfold having. apply Z.ltb_lt. lia. }
  destruct (Forall2_In_l _ _ _ _ H Hh) as (c & Hc & Sel).
  apply select_row_key in Sel. destruct Sel as [K _]. cbn in K.
  injection K as K1 K2 K3. exists c. auto.
Qed.

(** X1: a disease that has at least one of the input symptoms in its profile
    is always a candidate of the stored function, and it is in the returned
    table whenever at most 10 diseases are candidates. *)
Theorem diagnose_complete (db : database) (ids : list Z)
    (out : list diagnose_row) (d : disease) (ds : disease_symptom) :
  diagnose_returns db ids out ->
  In d (diseases db) -> In ds (disease_symptoms db) ->
  ds_disease_id ds = dis_id d -> In (ds_symptom_id ds) ids ->
  exists rows c,
    diagnose_rows db ids = Ok rows /\ In c rows /\
    disease_id c = dis_id d /\ disease_name c = dis_name d /\
    description c = dis_description d /\
    ((List.length rows <= 10)%nat -> In c out).
Proof.
  intros (rows & sorted & H & [P S] & ->) Hd Hds E Hin.
  destruct (diagnose_rows_complete db ids rows d ds H Hd Hds E Hin)
    as (c & Hc & K1 & K2 & K3).
  exists rows, c. repeat (split; [assumption |]).
  intros L. rewrite firstn_all2.
  - eapply Permutation_in; [exact P | exact Hc].
  - rewrite <- (Permutation_length P). exact L.
Qed.

Lemma diagnose_complete_witness :
  exists rows c,
    diagnose_rows Scenario.A [3]%Z = Ok rows /\ In c rows /\
    disease_id c = 2%Z /\ disease_name c = "Flu"%string /\
    description c = None /\
    ((List.length rows <= 10)%nat ->
     In c [Scenario.candidate 1 "Common Cold" 1 3 33;
           Scenario.candidate 2 "Flu" 1 4 25]).
Proof.
  apply (diagnose_complete Scenario.A [3]%Z
           [Scenario.candidate 1 "Common Cold" 1 3 33;
            Scenario.candidate 2 "Flu" 1 4 25]
           (Scenario.dis 2 "Flu") (Scenario.link 2 3)).
  - apply diagnose_is_admissible. vm_compute. reflexivity.
  - right; left; reflexivity.
  - do 5 right; left; reflexivity.
  - reflexivity.
  - left; reflexivity.
Defined.

(** X2: reporting more symptoms never lowers a disease's match count or
    confidence score, and leaves its profile size unchanged. *)
Theorem diagnose_more_symptoms (db : database) (ids ids' : list Z)
    (out out' : list diagnose_row) (c c' : diagnose_row) :
  incl ids ids' ->
  diagnose_returns db ids out -> diagnose_returns db ids' out' ->
  In c out -> In c' out' -> disease_id c = disease_id c' ->
  (match_count c <= match_count c')%Z /\
  total_symptoms c = total_symptoms c' /\
  exists s s',
    confidence_score c = Some s /\ confidence_score c' = Some s' /\
    (s <= s')%Z.
Proof.
  intros I H H' Hc Hc' E.
  destruct (diagnose_returns_sound _ _ _ _ H Hc) as (_ & M & T & B & S).
  destruct (diagnose_returns_sound _ _ _ _ H' Hc') as (_ & M' & T' & B' & S').
  assert (Em : (match_count c <= match_count c')%Z)
    by (rewrite M, M', E; apply overlap_mono; exact I).
  assert (Et : total_symptoms c = total_symptoms c')
    by (rewrite T, T', E; reflexivity).
  split; [exact Em |]. split; [exact Et |].
  do 2 eexists. split; [exact S |]. split; [exact S' |].
  rewrite Et. apply score_mono; lia.
Qed.

Lemma diagnose_more_symptoms_witness :
  (1 <= 2)%Z /\ 3%Z = 3%Z /\
  exists s s', Some 33%Z = Some s /\ Some 67%Z = Some s' /\ (s <= s')%Z.
Proof.
  apply (diagnose_more_symptoms Scenario.A [3]%Z [1; 2; 3]%Z
           [Scenario.candidate 1 "Common Cold" 1 3 33;
            Scenario.candidate 2 "Flu" 1 4 25]
           Scenario.ranked
           (Scenario.candidate 1 "Common Cold" 1 3 33)
           (Scenario.candidate 1 "Common Cold" 2 3 67)).
  - intros x [<- | []]. right; right; left; reflexivity.
  - apply diagnose_is_admissible. vm_compute. reflexivity.
  - apply diagnose_is_admissible. vm_compute. reflexivity.
  - left; reflexivity.
  - right; right; left; reflexivity.
  - reflexivity.
Defined.

(** X3: a returned disease whose whole profile is in the input (the profile
    holding each symptom once, as the UNIQUE constraint of
    [disease_symptoms] demands) has confidence score 100. *)
Theorem diagnose_full_profile (db : database) (ids : list Z)
    (out : list diagnose_row) (c : diagnose_row) :
  diagnose_returns db ids out -> In c out ->
  NoDup (profile db (disease_id c)) ->
  incl (profile db (disease_id c)) ids ->
  match_count c = total_symptoms c /\ confidence_score c = Some 100%Z.
Proof.
  intros H Hc N I.
  destruct (diagnose_returns_sound _ _ _ _ H Hc) as (_ & M & T & B & S).
  assert (E : match_count c = total_symptoms c)
    by (rewrite M, T; apply overlap_all; assumption).
  split; [exact E |].
  rewrite S, E. rewrite score_full by lia. reflexivity.
Qed.

Lemma diagnose_full_profile_witness :
  1%Z = 1%Z /\ Some 100%Z = Some 100%Z.
Proof.
  apply (diagnose_full_profile Scenario.A [1; 2; 3]%Z Scenario.ranked
           (Scenario.candidate 3 "Migraine" 1 1 100)).
  - apply diagnose_is_admissible. vm_compute. reflexivity.
  - left; reflexivity.
  - vm_compute. repeat constructor. intros [].
  - vm_compute. intros x [<- | []]. right; left; reflexivity.
Defined.
(* ================================================================= *)
(** * Properties of the catalog functions *)

(** ** [LIKE] *)

Section LikeFacts.
Local Open Scope string_scope.

Lemma any_suffix_spec (f : string -> bool) (s : string) :
  any_suffix f s = true <-> exists pre post, s = pre ++ post /\ f post = true.
Proof.
  induction s as [| c s IH]; cbn.
  - rewrite orb_false_r. split.
    + intros H. exists "", "". auto.
    + intros (pre & post & E & H). destruct pre; cbn in E; [| discriminate].
      subst post. exact H.
  - rewrite orb_true_iff, IH. split.
    + intros [H | (pre & post & -> & H)].
      * exists "", (String c s). auto.
      * exists (String c pre), post. auto.
    + intros (pre & post & E & H). destruct pre as [| c' pre]; cbn in E.
      * subst post. left. exact H.
      * injection E as -> ->. right. exists pre, post. auto.
Qed.

Lemma like_match_chars (q : string) (ts : list like_token) (s : string) :
  like_match (chars q ++ ts) s = true <->
  exists rest, s = q ++ rest /\ like_match ts rest = true.
Proof.
  revert s. induction q as [| c q IH]; intros s; cbn.
  - split; [intros H; exists s; auto | intros (rest & -> & H); exact H].
  - destruct s as [| c' s].
    + split; [discriminate | intros (rest & E & _); discriminate].
    + rewrite andb_true_iff, Ascii.eqb_eq, IH. split.
      * intros (-> & rest & -> & H). exists rest. auto.
      * intros (rest & E & H). injection E as -> ->. split; [reflexivity |].
        exists rest. auto.
Qed.

Lemma like_match_any (s : string) : like_match [Like_any] s = true.
Proof.
  cbn. apply any_suffix_spec. exists s, "".
  split; [| reflexivity].
  clear. induction s as [| c s IH]; cbn; [reflexivity | rewrite <- IH; reflexivity].
Qed.

(** [%q%] for a text [q] without special characters matches the texts that
    contain [q]. *)
Lemma like_contains (q s : string) :
  like_match (Like_any :: chars q ++ [Like_any]) s = true <-> contains q s.
Proof.
  cbn [like_match]. rewrite any_suffix_spec. unfold contains. split.
  - intros (pre & post & -> & H). apply like_match_chars in H.
    destruct H as (rest & -> & _). exists pre, rest. reflexivity.
  - intros (pre & post & ->). exists pre, (q ++ post). split; [reflexivity |].
    apply like_match_chars. exists post. split; [reflexivity | apply like_match_any].
Qed.

Lemma lower_char_special (c : ascii) :
  Ascii.eqb (Py.lower_char c) "\" = Ascii.eqb c "\" /\
  Ascii.eqb (Py.lower_char c) "%" = Ascii.eqb c "%" /\
  Ascii.eqb (Py.lower_char c) "_" = Ascii.eqb c "_".
Proof.
  destruct c as [[] [] [] [] [] [] [] []]; vm_compute; auto.
Qed.

Lemma plain_lower (q : string) : plain (Py.lower q) = plain q.
Proof.
  induction q as [| c q IH]; cbn; [reflexivity |].
  destruct (lower_char_special c) as (-> & -> & ->). rewrite IH. reflexivity.
Qed.

Lemma lower_app (a b : string) : Py.lower (a ++ b) = Py.lower a ++ Py.lower b.
Proof.
  induction a as [| c a IH]; cbn; [reflexivity | rewrite IH; reflexivity].
Qed.

Lemma like_tokens_plain (q rest : string) :
  plain q = true ->
  like_tokens (q ++ rest) = option_map (app (chars q)) (like_tokens rest).
Proof.
  induction q as [| c q IH]; cbn; intros H.
  - destruct (like_tokens rest); reflexivity.
  - apply andb_true_iff in H. destruct H as [H Hq].
    apply andb_true_iff in H. destruct H as [H H3].
    apply andb_true_iff in H. destruct H as [H1 H2].
    apply negb_true_iff in H1, H2, H3. rewrite H1, H2, H3.
    rewrite (IH Hq). destruct (like_tokens rest); reflexivity.
Qed.

Lemma search_pattern_plain (query : string) :
  plain query = true ->
  like_tokens (search_pattern query)
  = Some (Like_any :: chars (Py.lower query) ++ [Like_any]).
Proof.
  intros H. unfold search_pattern.
  change ("%" ++ Py.lower query ++ "%")
    with (String "%" (Py.lower query ++ "%")).
  cbn [like_tokens]. change (Ascii.eqb "%" "\") with false.
  change (Ascii.eqb "%" "%") with true. cbn [option_map].
  rewrite like_tokens_plain by (rewrite plain_lower; exact H).
  reflexivity.
Qed.

(** [%q1%q2%]: the texts that contain [q1] and, after it, [q2]. *)
Lemma like_contains_two (q1 q2 s : string) :
  like_match (Like_any :: chars q1 ++ Like_any :: chars q2 ++ [Like_any]) s = true
  <-> exists a b c, s = a ++ q1 ++ b ++ q2 ++ c.
Proof.
  cbn [like_match]. rewrite any_suffix_spec. split.
  - intros (a & post & -> & H). apply like_match_chars in H.
    destruct H as (rest & -> & H).
    apply (proj1 (like_contains q2 rest)) in H. destruct H as (b & c & ->).
    exists a, b, c. reflexivity.
  - intros (a & b & c & ->). exists a, (q1 ++ b ++ q2 ++ c).
    split; [reflexivity |]. apply like_match_chars. exists (b ++ q2 ++ c).
    split; [reflexivity |]. apply like_contains. exists b, c. reflexivity.
Qed.

Lemma search_pattern_percent (q1 q2 : string) :
  plain q1 = true -> plain q2 = true ->
  like_tokens (search_pattern (q1 ++ "%" ++ q2))
  = Some (Like_any :: chars (Py.lower q1)
            ++ Like_any :: chars (Py.lower q2) ++ [Like_any]).
Proof.
  intros H1 H2. unfold search_pattern.
  rewrite !lower_app.
  change (Py.lower "%") with "%".
  change ("%" ++ (Py.lower q1 ++ "%" ++ Py.lower q2) ++ "%")
    with (String "%" ((Py.lower q1 ++ String "%" (Py.lower q2)) ++ "%")).
  cbn [like_tokens]. change (Ascii.eqb "%" "\") with false.
  change (Ascii.eqb "%" "%") with true.
  assert (E : (Py.lower q1 ++ String "%" (Py.lower q2)) ++ "%"
              = Py.lower q1 ++ String "%" (Py.lower q2 ++ "%")).
  { clear. induction (Py.lower q1) as [| c a IH]; cbn; [reflexivity |].
    rewrite IH. reflexivity. }
  rewrite E.
  rewrite like_tokens_plain by (rewrite plain_lower; exact H1).
  cbn [like_tokens]. change (Ascii.eqb "%" "\") with false.
  change (Ascii.eqb "%" "%") with true.
  rewrite like_tokens_plain by (rewrite plain_lower; exact H2).
  reflexivity.
Qed.

End LikeFacts.

(** ** [search_symptoms] *)

Section CatalogFacts.

Variable collate : string -> string -> bool.

Lemma search_symptoms_returns_inv (db : database) (query : string)
    (out : list symptom_dict) :
  search_symptoms_returns collate db query out ->
  exists ts,
    like_tokens (search_pattern query) = Some ts /\
    (forall d, In d out ->
       exists s, In s (symptoms db) /\ d = symptom_dict_of s /\
                 like_match ts (Py.lower (sym_name s)) = true) /\
    (List.length out <= 50)%nat /\
    ((List.length (search_where db ts) <= 50)%nat ->
     forall s, In s (symptoms db) ->
               like_match ts (Py.lower (sym_name s)) = true ->
               In (symptom_dict_of s) out).
Proof.
  intros (ts & rows & T & [P S] & ->). exists ts.
  split; [exact T |]. split; [| split].
  - intros d Hd. apply in_map_iff in Hd. destruct Hd as (s & <- & Hs).
    apply In_firstn in Hs.
    apply (Permutation_in _ (Permutation_sym P)) in Hs.
    apply filter_In in Hs. exists s. tauto.
  - rewrite length_map. apply firstn_le_length.
  - intros L s Hs M. apply in_map. rewrite firstn_all2.
    + apply (Permutation_in _ P). apply filter_In. auto.
    + rewrite <- (Permutation_length P). exact L.
Qed.

(** X4: for a query without [%], [_] and backslash, the search returns
    only symptoms whose lowercased name contains the lowercased query, at
    most 50 of them, and all of them when at most 50 match. *)
Theorem search_symptoms_substring (db : database) (query : string)
    (out : list symptom_dict) :
  plain query = true ->
  search_symptoms_returns collate db query out ->
  (forall d, In d out ->
     exists s, In s (symptoms db) /\ d = symptom_dict_of s /\
               contains (Py.lower query) (Py.lower (sym_name s))) /\
  (List.length out <= 50)%nat /\
  ((List.length
      (search_where db (Like_any :: chars (Py.lower query) ++ [Like_any]))
    <= 50)%nat ->
   forall s, In s (symptoms db) ->
             contains (Py.lower query) (Py.lower (sym_name s)) ->
             In (symptom_dict_of s) out).
Proof.
  intros Hp H.
  destruct (search_symptoms_returns_inv db query out H) as (ts & T & A & B & C).
  rewrite (search_pattern_plain query Hp) in T. injection T as <-.
  split; [| split; [exact B |]].
  - intros d Hd. destruct (A d Hd) as (s & Hs & E & M).
    exists s. split; [exact Hs |]. split; [exact E |].
    apply like_contains. exact M.
  - intros L s Hs M. apply (C L s Hs). apply like_contains. exact M.
Qed.

(** X5: a [%] typed in the query is not escaped: the query [q1%q2] finds
    the symptoms whose lowercased name contains [q1] and, anywhere after
    it, [q2]. *)
Theorem search_symptoms_wildcard (db : database) (q1 q2 : string)
    (out : list symptom_dict) (d : symptom_dict) :
  plain q1 = true -> plain q2 = true ->
  search_symptoms_returns collate db (q1 ++ "%" ++ q2)%string out ->
  In d out ->
  exists s a b c,
    In s (symptoms db) /\ d = symptom_dict_of s /\
    Py.lower (sym_name s)
    = (a ++ Py.lower q1 ++ b ++ Py.lower q2 ++ c)%string.
Proof.
  intros H1 H2 H Hd.
  destruct (search_symptoms_returns_inv db _ out H) as (ts & T & A & _).
  rewrite (search_pattern_percent q1 q2 H1 H2) in T. injection T as <-.
  destruct (A d Hd) as (s & Hs & E & M).
  apply like_contains_two in M. destruct M as (a & b & c & M).
  exists s, a, b, c. auto.
Qed.

End CatalogFacts.

(** ** The reference functions are admissible *)

Lemma order_by_perm {A : Type} (leb : A -> A -> bool) (l : list A) :
  Permutation l (order_by leb l).
Proof.
  unfold order_by. induction l as [| x l IH]; cbn; [constructor |].
  eapply Permutation_trans; [apply perm_skip; exact IH |].
  apply insert_by_perm.
Qed.

Section Admissible.

Variable collate : string -> string -> bool.
Hypothesis collate_total : forall a b, collate a b = false -> collate b a = true.

Lemma by_name_total (a b : symptom) :
  by_name collate a b = false -> by_name collate b a = true.
Proof. unfold by_name. apply collate_total. Qed.

Lemma search_symptoms_admissible (db : database) (query : string)
    (out : list symptom_dict) :
  search_symptoms collate db query = Some out ->
  search_symptoms_returns collate db query out.
Proof.
  unfold search_symptoms. intros H.
  destruct (like_tokens (search_pattern query)) as [ts |] eqn:T; [| discriminate].
  injection H as <-.
  exists ts, (order_by (by_name collate) (search_where db ts)).
  split; [exact T |]. split; [| reflexivity].
  apply order_by_ordering. exact by_name_total.
Qed.

Lemma get_disease_details_admissible (db : database) (id : Z) :
  get_disease_details_returns collate db id (get_disease_details collate db id).
Proof.
  unfold get_disease_details_returns, get_disease_details.
  destruct (filter (fun d => (dis_id d =? id)%Z) (diseases db)) as [| d l];
    [exact I |].
  cbn. repeat split; try reflexivity.
  - apply order_by_perm.
  - apply order_by_ordering. exact by_name_total.
  - apply get_recommendations_admissible.
Qed.

End Admissible.

(** The bytewise collation (the "C" locale), for the examples. *)
Lemma leb_total_bool (a b : string) : String.leb a b = false -> String.leb b a = true.
Proof.
  intros H. destruct (String.leb_total a b) as [E | E]; [congruence | exact E].
Qed.

Lemma search_symptoms_substring_witness :
  (forall d,
      In d [symptom_dict_of (Scenario.sym 2 "headache")] ->
      exists s, In s (symptoms Scenario.A) /\ d = symptom_dict_of s /\
                contains (Py.lower "Ache") (Py.lower (sym_name s))) /\
  (List.length [symptom_dict_of (Scenario.sym 2 "headache")] <= 50)%nat /\
  ((List.length
      (search_where Scenario.A
         (Like_any :: chars (Py.lower "Ache") ++ [Like_any])) <= 50)%nat ->
   forall s, In s (symptoms Scenario.A) ->
             contains (Py.lower "Ache") (Py.lower (sym_name s)) ->
             In (symptom_dict_of s) [symptom_dict_of (Scenario.sym 2 "headache")]).
Proof.
  apply (search_symptoms_substring String.leb Scenario.A "Ache").
  - reflexivity.
  - apply (search_symptoms_admissible String.leb leb_total_bool). vm_compute. reflexivity.
Defined.

Lemma search_symptoms_wildcard_witness :
  exists s a b c,
    In s (symptoms Scenario.A) /\
    symptom_dict_of (Scenario.sym 2 "headache") = symptom_dict_of s /\
    Py.lower (sym_name s)
    = (a ++ Py.lower "h" ++ b ++ Py.lower "che" ++ c)%string.
Proof.
  apply (search_symptoms_wildcard String.leb Scenario.A "h" "che"
           [symptom_dict_of (Scenario.sym 2 "headache")]).
  - reflexivity.
  - reflexivity.
  - apply (search_symptoms_admissible String.leb leb_total_bool). vm_compute. reflexivity.
  - left. reflexivity.
Defined.

(** ** [get_disease_details] *)

Lemma details_symptoms_In (db : database) (id : Z) (s : symptom) :
  In s (details_symptoms db id) <->
  In s (symptoms db) /\ In (sym_id s) (profile db id).
Proof.
  unfold details_symptoms, profile. rewrite in_flat_map. split.
  - intros (s' & Hs' & H). apply in_map_iff in H.
    destruct H as (ds & <- & Hds). apply filter_In in Hds.
    destruct Hds as [Hds E]. apply andb_true_iff in E. destruct E as [E1 E2].
    apply Z.eqb_eq in E1. split; [exact Hs' |].
    apply in_map_iff. exists ds. split; [symmetry; exact E1 |].
    apply filter_In. auto.
  - intros [Hs H]. apply in_map_iff in H. destruct H as (ds & E & Hds).
    apply filter_In in Hds. destruct Hds as [Hds E2].
    exists s. split; [exact Hs |]. apply in_map_iff. exists ds.
    split; [reflexivity |]. apply filter_In. split; [exact Hds |].
    apply andb_true_iff. split; [apply Z.eqb_eq; symmetry; exact E | exact E2].
Qed.

(** X6: the details of a disease exist exactly when a disease has the id;
    they carry that id, and their symptoms are the symptoms of the catalog
    whose id is in the disease's profile, so an association to an id that
    is not in [symptoms] is left out. *)
Theorem get_disease_details_spec (collate : string -> string -> bool)
    (db : database) (id : Z) (r : option disease_details) :
  get_disease_details_returns collate db id r ->
  (r = None <-> ~ In id (map dis_id (diseases db))) /\
  (forall det, r = Some det ->
     det_id det = id /\
     In {| dis_id := det_id det; dis_name := det_name det;
           dis_description := det_description det |} (diseases db) /\
     (forall s, In s (det_symptoms det) <->
                In s (symptoms db) /\ In (sym_id s) (profile db id))).
Proof.
  unfold get_disease_details_returns.
  destruct (filter (fun d => (dis_id d =? id)%Z) (diseases db)) as [| d l] eqn:F.
  - destruct r as [det |]; [contradiction |]. intros _. split.
    + split; [| reflexivity]. intros _ H. apply in_map_iff in H.
      destruct H as (d & E & Hd).
      assert (X : In d (filter (fun d => (dis_id d =? id)%Z) (diseases db)))
        by (apply filter_In; split; [exact Hd | apply Z.eqb_eq; exact E]).
      rewrite F in X. contradiction.
    + discriminate.
  - assert (X : In d (filter (fun d => (dis_id d =? id)%Z) (diseases db)))
      by (rewrite F; left; reflexivity).
    apply filter_In in X. destruct X as [Hd E]. apply Z.eqb_eq in E.
    destruct r as [det |]; [| contradiction].
    intros (A & B & C & [P _] & _). split.
    + split; [discriminate |]. intros N. exfalso. apply N.
      rewrite <- E. apply in_map. exact Hd.
    + intros det' H. injection H as <-. split; [congruence |]. split.
      * rewrite A, B, C. destruct d. exact Hd.
      * intros s. rewrite <- details_symptoms_In. split; intros H.
        -- apply (Permutation_in _ (Permutation_sym P)). exact H.
        -- apply (Permutation_in _ P). exact H.
Qed.

Lemma get_disease_details_spec_witness :
  (get_disease_details String.leb Scenario.A 3 = None <->
   ~ In 3%Z (map dis_id (diseases Scenario.A))) /\
  (forall det, get_disease_details String.leb Scenario.A 3 = Some det ->
     det_id det = 3%Z /\
     In {| dis_id := det_id det; dis_name := det_name det;
           dis_description := det_description det |} (diseases Scenario.A) /\
     (forall s, In s (det_symptoms det) <->
                In s (symptoms Scenario.A) /\
                In (sym_id s) (profile Scenario.A 3))).
Proof.
  apply (get_disease_details_spec String.leb Scenario.A 3).
  apply get_disease_details_admissible. exact leb_total_bool.
Defined.
(* ================================================================= *)
(** * The loader and the lookup *)

Section LoaderFacts.
Import Loader.








End LoaderFacts.
